(** * OpenRouterApiService: request lifecycle of the text-generation client

    A shallow embedding of [OpenRouterApiService] (generateText,
    abortRequest, cleanupRequest, generateRequestId) together with the part
    of the RxJS runtime the service is written against: [Subject],
    [takeUntil] and [tap].  The two private maps of the service are finite
    maps keyed by strings; the audit logger is the ordered list of the calls
    it received; [Date.now()], [Math.random()], the settings snapshot and the
    log id handed back by the logger are inputs of each call. *)

From Stdlib Require Import ZArith QArith.QArith_base.
From stdpp Require Import base option list gmap strings pretty.

Local Open Scope string_scope.
Local Open Scope list_scope.
Local Open Scope Z_scope.

(** ** JavaScript values *)

(** Truthiness of a string: every string but the empty one. *)
Definition truthy_string (x : string) : bool :=
  match x with
  | EmptyString => false
  | String _ _ => true
  end.

(** Truthiness of an integral number: every number but zero. *)
Definition truthy_number (n : Z) : bool := negb (n =? 0).

(** [a || b] where [a] is an optional string ([None] is [undefined]). *)
Definition or_string (a : option string) (b : string) : string :=
  match a with
  | Some x => if truthy_string x then x else b
  | None => b
  end.

(** [a || b] where [a] is an optional number. *)
Definition or_number (a : option Z) (b : Z) : Z :=
  match a with
  | Some x => if truthy_number x then x else b
  | None => b
  end.

(** [a !== undefined ? a : b]. *)
Definition defined_or {A : Type} (a : option A) (b : A) : A :=
  match a with
  | Some x => x
  | None => b
  end.

(** ** [Math.floor(maxTokens / 1.3)]

    Token counts are integral numbers.  The literal [1.3] denotes the
    binary64 number [d1_3 / 2^52]; the quotient is rounded to the nearest
    binary64 number (ties to even) before [Math.floor] is taken.  The
    quotient of a positive integer [m] is kept as a 53-bit significand and
    an exponent. *)

Definition d1_3 : Z := 5854679515581645.

(** Nearest integer to [n / d], ties to even, for [0 <= n] and [0 < d]. *)
Definition round_half_even (n d : Z) : Z :=
  let q := n / d in
  let r := n mod d in
  if 2 * r <? d then q
  else if d <? 2 * r then q + 1
  else if Z.even q then q else q + 1.

(** [m / 1.3] in binary64 for an integer [0 < m]: the pair [(n, e)] stands
    for [n * 2^e]. *)
Definition fdiv_1_3 (m : Z) : Z * Z :=
  let a := m * 2 ^ 52 in
  let k0 := Z.log2 a - Z.log2 d1_3 in
  let k := if a <? d1_3 * 2 ^ k0 then k0 - 1 else k0 in
  let e := k - 52 in
  let n := if 0 <=? e then round_half_even a (d1_3 * 2 ^ e)
           else round_half_even (a * 2 ^ (- e)) d1_3 in
  (n, e).

(** [Math.floor] of [n * 2^e]. *)
Definition Math_floor (n e : Z) : Z :=
  if 0 <=? e then n * 2 ^ e else n / 2 ^ (- e).

Definition Math_floor_div_1_3 (m : Z) : Z :=
  match m with
  | Z0 => 0
  | Zpos _ => let '(n, e) := fdiv_1_3 m in Math_floor n e
  | Zneg _ => let '(n, e) := fdiv_1_3 (- m) in Math_floor (- n) e
  end.

(** ** Data shapes *)

Inductive Role := system | user | assistant.

Record ChatMessage := {
  role : Role;
  content : string
}.

Record OpenRouterRequest := {
  model : string;
  messages : list ChatMessage;
  max_tokens : option Z;
  temperature : option Q;
  top_p : option Q;
  stream : option bool
}.

(** The response fields the service reads: [response.choices?.[0]?.message?.content]. *)
Record ResponseMessage := {
  res_role : string;
  res_content : option string
}.

Record Choice := {
  choice_message : option ResponseMessage
}.

Record OpenRouterResponse := {
  choices : option (list Choice)
}.

(** The error fields the service reads: [error.message] and [error.error?.message]. *)
Record ErrorBody := {
  body_message : option string
}.

Record HttpError := {
  message : option string;
  error : option ErrorBody
}.

(** The options argument of [generateText]; every field is optional. *)
Record Options := {
  opt_model : option string;
  opt_maxTokens : option Z;
  opt_temperature : option Q;
  opt_topP : option Q;
  opt_wordCount : option Z;
  opt_requestId : option string
}.

(** Modelled from the spec: the [openRouter] part of the settings snapshot
    returned by [SettingsService.getSettings()], whose declaration is not
    part of the service file: enabled flag, API key, default model,
    temperature and top-p. *)
Record OpenRouterSettings := {
  enabled : bool;
  apiKey : string;
  cfg_model : string;
  cfg_temperature : Q;
  cfg_topP : Q
}.

(** The calls received by [AIRequestLoggerService], in the order received. *)
Inductive LogCall :=
  | logRequest (endpoint model : string) (wordCount maxTokens : Z) (prompt : string)
  | logSuccess (logId content : string) (duration : Z)
  | logError (logId errorMessage : string) (duration : Z)
  | logAborted (logId : string) (duration : Z).

(** A value of [requestMetadata]. *)
Record Metadata := {
  logId : string;
  startTime : Z
}.

(** What one call of [generateText] reads from its surroundings. *)
Record Env := {
  getSettings : OpenRouterSettings;   (* settingsService.getSettings().openRouter *)
  Date_now : Z;                       (* Date.now() at the start of the call *)
  logRequest_result : string;         (* the log id returned by aiLogger.logRequest *)
  location_origin : string;           (* window.location.origin *)
  id_Date_now : Z;                    (* Date.now() inside generateRequestId *)
  id_random : string                  (* Math.random().toString(36).substring(2, 9) *)
}.

Inductive exn := Error (msg : string).

(** ** The RxJS runtime

    A [Subject] is an object on a heap, referred to by its index.  The
    observable returned by [generateText] is cold: the POST is issued when
    it is subscribed, and each subscription is a transport call of its own.
    A subscription of [source.pipe(takeUntil(notifier), tap(...))] is
    - [Listening] while the transport call is pending and the notifier can
      still end it,
    - [Detached] while the call is pending but the notifier has completed
      without a value ([takeUntil] ignores the completion of its notifier),
    - [Closed] once the call has settled or the notifier has emitted. *)

Record Subject := {
  isStopped : bool
}.

Inductive SubscriptionState := Listening | Detached | Closed.

(** The closure of the observable built by [generateText]. *)
Record Observable := {
  ob_request : OpenRouterRequest;
  ob_headers : list (string * string);
  ob_requestId : string;
  ob_abortSubject : nat;
  ob_logId : string;
  ob_startTime : Z
}.

Record Subscription := {
  sub_source : Observable;
  sub_state : SubscriptionState
}.

Record State := {
  abortSubjects : gmap string nat;          (* Map<string, Subject<void>> *)
  requestMetadata : gmap string Metadata;   (* Map<string, {logId, startTime}> *)
  aiLogger : list LogCall;
  subjects : list Subject;
  observables : list Observable;            (* the observables handed to callers *)
  subscriptions : list Subscription
}.

Definition initial : State :=
  {| abortSubjects := ∅; requestMetadata := ∅; aiLogger := [];
     subjects := []; observables := []; subscriptions := [] |}.

Definition set_abortSubjects (f : gmap string nat → gmap string nat) (s : State) : State :=
  {| abortSubjects := f (abortSubjects s); requestMetadata := requestMetadata s;
     aiLogger := aiLogger s; subjects := subjects s;
     observables := observables s; subscriptions := subscriptions s |}.

Definition set_requestMetadata (f : gmap string Metadata → gmap string Metadata) (s : State) : State :=
  {| abortSubjects := abortSubjects s; requestMetadata := f (requestMetadata s);
     aiLogger := aiLogger s; subjects := subjects s;
     observables := observables s; subscriptions := subscriptions s |}.

Definition call_aiLogger (c : LogCall) (s : State) : State :=
  {| abortSubjects := abortSubjects s; requestMetadata := requestMetadata s;
     aiLogger := aiLogger s ++ [c]; subjects := subjects s;
     observables := observables s; subscriptions := subscriptions s |}.

Definition set_subjects (f : list Subject → list Subject) (s : State) : State :=
  {| abortSubjects := abortSubjects s; requestMetadata := requestMetadata s;
     aiLogger := aiLogger s; subjects := f (subjects s);
     observables := observables s; subscriptions := subscriptions s |}.

Definition set_observables (f : list Observable → list Observable) (s : State) : State :=
  {| abortSubjects := abortSubjects s; requestMetadata := requestMetadata s;
     aiLogger := aiLogger s; subjects := subjects s;
     observables := f (observables s); subscriptions := subscriptions s |}.

Definition set_subscriptions (f : list Subscription → list Subscription) (s : State) : State :=
  {| abortSubjects := abortSubjects s; requestMetadata := requestMetadata s;
     aiLogger := aiLogger s; subjects := subjects s;
     observables := observables s; subscriptions := f (subscriptions s) |}.

(** What a value, or the completion, of the notifier does to a subscription. *)
Definition on_next (st : SubscriptionState) : SubscriptionState :=
  match st with
  | Listening => Closed
  | _ => st
  end.

Definition on_complete (st : SubscriptionState) : SubscriptionState :=
  match st with
  | Listening => Detached
  | _ => st
  end.

Definition notify (f : SubscriptionState → SubscriptionState) (h : nat)
    (sb : Subscription) : Subscription :=
  if decide (ob_abortSubject (sub_source sb) = h)
  then {| sub_source := sub_source sb; sub_state := f (sub_state sb) |}
  else sb.

(** [subject.isStopped]; a reference to nothing allocated counts as stopped. *)
Definition stopped (h : nat) (s : State) : bool :=
  match subjects s !! h with
  | Some sj => isStopped sj
  | None => true
  end.

(** [subject.next()]: a stopped subject emits nothing. *)
Definition Subject_next (h : nat) (s : State) : State :=
  if stopped h s then s
  else set_subscriptions (fmap (notify on_next h)) s.

(** [subject.complete()]. *)
Definition Subject_complete (h : nat) (s : State) : State :=
  if stopped h s then s
  else set_subscriptions (fmap (notify on_complete h))
         (set_subjects (<[h := {| isStopped := true |}]>) s).

(** ** The service *)

Definition API_URL : string := "https://openrouter.ai/api/v1/chat/completions".

Definition generateRequestId (env : Env) : string :=
  "req_" +:+ pretty (id_Date_now env) +:+ "_" +:+ id_random env.

Definition cleanupRequest (requestId : string) (s : State) : State :=
  let s1 :=
    match abortSubjects s !! requestId with
    | Some abortSubject =>
        set_abortSubjects (delete requestId) (Subject_complete abortSubject s)
    | None => s
    end in
  set_requestMetadata (delete requestId) s1.

Definition abortRequest (requestId : string) (now : Z) (s : State) : State :=
  match abortSubjects s !! requestId, requestMetadata s !! requestId with
  | Some abortSubject, Some metadata =>
      let duration := now - startTime metadata in
      let s1 := call_aiLogger (logAborted (logId metadata) duration) s in
      let s2 := Subject_next abortSubject s1 in
      cleanupRequest requestId s2
  | _, _ => s
  end.

Inductive Result := Throw (e : exn) | Return (o : Observable).

Definition resolve_maxTokens (options : Options) : Z :=
  or_number (opt_maxTokens options) 500.

Definition resolve_wordCount (options : Options) : Z :=
  or_number (opt_wordCount options) (Math_floor_div_1_3 (resolve_maxTokens options)).

Definition build_headers (settings : OpenRouterSettings) (env : Env) : list (string * string) :=
  [ ("Authorization", "Bearer " +:+ apiKey settings);
    ("Content-Type", "application/json");
    ("HTTP-Referer", location_origin env);
    ("X-Title", "Creative Writer") ].

Definition build_request (prompt model : string) (options : Options)
    (settings : OpenRouterSettings) : OpenRouterRequest :=
  {| model := model;
     messages := [ {| role := user; content := prompt |} ];
     max_tokens := Some (resolve_maxTokens options);
     temperature := Some (defined_or (opt_temperature options) (cfg_temperature settings));
     top_p := Some (defined_or (opt_topP options) (cfg_topP settings));
     stream := None |}.

Definition generateText (prompt : string) (options : Options) (env : Env)
    (s : State) : Result * State :=
  let settings := getSettings env in
  let startTime := Date_now env in
  if negb (enabled settings) || negb (truthy_string (apiKey settings)) then
    (Throw (Error "OpenRouter API ist nicht aktiviert oder API-Key fehlt"), s)
  else
    let model := or_string (opt_model options) (cfg_model settings) in
    if negb (truthy_string model) then
      (Throw (Error "Kein AI-Modell ausgewählt"), s)
    else
      let maxTokens := resolve_maxTokens options in
      let wordCount := resolve_wordCount options in
      let s1 := call_aiLogger (logRequest API_URL model wordCount maxTokens prompt) s in
      let logId := logRequest_result env in
      let headers := build_headers settings env in
      let request := build_request prompt model options settings in
      let requestId := or_string (opt_requestId options) (generateRequestId env) in
      let abortSubject := length (subjects s1) in
      let s2 := set_subjects (λ l, l ++ [ {| isStopped := false |} ]) s1 in
      let s3 := set_abortSubjects (<[requestId := abortSubject]>) s2 in
      let s4 := set_requestMetadata
                  (<[requestId := {| logId := logId; startTime := startTime |}]>) s3 in
      (Return {| ob_request := request; ob_headers := headers;
                 ob_requestId := requestId; ob_abortSubject := abortSubject;
                 ob_logId := logId; ob_startTime := startTime |}, s4).

(** ** Subscribing and settling *)

(** [observable.subscribe(...)]: [takeUntil] subscribes to the notifier, then
    the POST is issued. *)
Definition subscribe (o : Observable) (s : State) : State :=
  let st := if stopped (ob_abortSubject o) s then Detached else Listening in
  set_subscriptions (λ l, l ++ [ {| sub_source := o; sub_state := st |} ]) s.

Inductive Outcome :=
  | Response (response : OpenRouterResponse)
  | Failure (err : HttpError).

(** [response.choices?.[0]?.message?.content || ''] *)
Definition first_content (response : OpenRouterResponse) : string :=
  let first : option Choice :=
    match choices response with
    | Some (c :: _) => Some c
    | _ => None
    end in
  let msg : option ResponseMessage :=
    match first with
    | Some c => choice_message c
    | None => None
    end in
  let content : option string :=
    match msg with
    | Some m => res_content m
    | None => None
    end in
  or_string content "".

(** [error.message || error.error?.message || 'Unknown error'] *)
Definition errorMessage (err : HttpError) : string :=
  let body : option string :=
    match error err with
    | Some b => body_message b
    | None => None
    end in
  or_string (message err) (or_string body "Unknown error").

(** The [next] and [error] callbacks of [tap]. *)
Definition tap_next (o : Observable) (response : OpenRouterResponse) (now : Z)
    (s : State) : State :=
  let duration := now - ob_startTime o in
  let content := first_content response in
  cleanupRequest (ob_requestId o)
    (call_aiLogger (logSuccess (ob_logId o) content duration) s).

Definition tap_error (o : Observable) (err : HttpError) (now : Z) (s : State) : State :=
  let duration := now - ob_startTime o in
  let errorMessage := errorMessage err in
  cleanupRequest (ob_requestId o)
    (call_aiLogger (logError (ob_logId o) errorMessage duration) s).

Definition close (sb : Subscription) : Subscription :=
  {| sub_source := sub_source sb; sub_state := Closed |}.

(** The transport call of subscription [i] settles at time [now]: a closed
    subscription discards the outcome. *)
Definition settle (i : nat) (out : Outcome) (now : Z) (s : State) : State :=
  match subscriptions s !! i with
  | Some sb =>
      match sub_state sb with
      | Closed => s
      | _ =>
          let s1 :=
            match out with
            | Response response => tap_next (sub_source sb) response now s
            | Failure err => tap_error (sub_source sb) err now s
            end in
          set_subscriptions (alter close i) s1
      end
  | None => s
  end.

(** ** Runs of the service *)

Inductive Event :=
  | EvGenerateText (prompt : string) (options : Options) (env : Env)
  | EvSubscribe (o : nat)
  | EvSettle (i : nat) (out : Outcome) (now : Z)
  | EvAbortRequest (requestId : string) (now : Z).

Definition step (s : State) (ev : Event) : State :=
  match ev with
  | EvGenerateText prompt options env =>
      match generateText prompt options env s with
      | (Return o, s') => set_observables (λ l, l ++ [o]) s'
      | (Throw _, s') => s'
      end
  | EvSubscribe o =>
      match observables s !! o with
      | Some ob => subscribe ob s
      | None => s
      end
  | EvSettle i out now => settle i out now s
  | EvAbortRequest requestId now => abortRequest requestId now s
  end.

Definition run (evs : list Event) (s : State) : State := foldl step s evs.

(** Options with one field replaced. *)
Definition with_model (m : option string) (o : Options) : Options :=
  {| opt_model := m; opt_maxTokens := opt_maxTokens o;
     opt_temperature := opt_temperature o; opt_topP := opt_topP o;
     opt_wordCount := opt_wordCount o; opt_requestId := opt_requestId o |}.

Definition with_wordCount (w : option Z) (o : Options) : Options :=
  {| opt_model := opt_model o; opt_maxTokens := opt_maxTokens o;
     opt_temperature := opt_temperature o; opt_topP := opt_topP o;
     opt_wordCount := w; opt_requestId := opt_requestId o |}.

Definition no_options : Options :=
  {| opt_model := None; opt_maxTokens := None; opt_temperature := None;
     opt_topP := None; opt_wordCount := None; opt_requestId := None |}.

(** ** Predicates on states *)

(** The settings and options let [generateText] go past its two checks. *)
Definition passes_validation (options : Options) (env : Env) : Prop :=
  enabled (getSettings env) = true
  ∧ apiKey (getSettings env) ≠ ""
  ∧ or_string (opt_model options) (cfg_model (getSettings env)) ≠ "".

(** Subscription [i] has settled or was cancelled. *)
Definition closed_at (i : nat) (s : State) : Prop :=
  ∃ sb, subscriptions s !! i = Some sb ∧ sub_state sb = Closed.

(** The invariant of reachable states. *)

Record Inv (s : State) : Prop := {
  (* both maps have the same keys *)
  inv_dom : dom (abortSubjects s) = dom (requestMetadata s);
  (* a registered subject has not completed *)
  inv_live : ∀ id h, abortSubjects s !! id = Some h → stopped h s = false;
  (* a subject is registered under one id only *)
  inv_inj : ∀ id1 id2 h,
    abortSubjects s !! id1 = Some h → abortSubjects s !! id2 = Some h → id1 = id2;
  (* a pending call is detached only from a completed subject *)
  inv_detached : ∀ i sb,
    subscriptions s !! i = Some sb → sub_state sb = Detached →
    stopped (ob_abortSubject (sub_source sb)) s = true;
  (* every subject referred to has been allocated *)
  inv_sub_alloc : ∀ i sb,
    subscriptions s !! i = Some sb →
    (ob_abortSubject (sub_source sb) < length (subjects s))%nat;
  inv_ob_alloc : ∀ o ob,
    observables s !! o = Some ob → (ob_abortSubject ob < length (subjects s))%nat
}.

(** ** Sample inputs *)

Definition sample_settings : OpenRouterSettings :=
  {| enabled := true; apiKey := "sk-or-1"; cfg_model := "openai/gpt-4o";
     cfg_temperature := 7 # 10; cfg_topP := 1 # 1 |}.

Definition disabled_settings : OpenRouterSettings :=
  {| enabled := false; apiKey := "sk-or-1"; cfg_model := "openai/gpt-4o";
     cfg_temperature := 7 # 10; cfg_topP := 1 # 1 |}.

Definition sample_env (settings : OpenRouterSettings) (now : Z) (log : string) : Env :=
  {| getSettings := settings; Date_now := now; logRequest_result := log;
     location_origin := "http://localhost:4200";
     id_Date_now := now; id_random := "k3j9x2a" |}.

Definition with_requestId (r : string) : Options :=
  {| opt_model := None; opt_maxTokens := None; opt_temperature := None;
     opt_topP := None; opt_wordCount := None; opt_requestId := Some r |}.

Definition with_maxTokens (n : Z) : Options :=
  {| opt_model := None; opt_maxTokens := Some n; opt_temperature := None;
     opt_topP := None; opt_wordCount := None; opt_requestId := None |}.

Definition with_temperature (t : Q) : Options :=
  {| opt_model := None; opt_maxTokens := None; opt_temperature := Some t;
     opt_topP := None; opt_wordCount := None; opt_requestId := None |}.

Definition sample_run : list Event :=
  [ EvGenerateText "Once upon a time" (with_requestId "req-1")
      (sample_env sample_settings 1000 "log-1");
    EvSubscribe 0 ].

Definition sample_response : OpenRouterResponse :=
  {| choices := Some [ {| choice_message :=
                            Some {| res_role := "assistant";
                                    res_content := Some "there was a fox." |} |} ] |}.

Definition sample_error : HttpError :=
  {| message := Some "Http failure response: 401 Unauthorized";
     error := Some {| body_message := Some "Invalid API key" |} |}.

(** ** Counting and scanning *)

(** Number of calls in an audit log that satisfy [p]. *)
Fixpoint count_calls (p : LogCall → bool) (l : list LogCall) : nat :=
  match l with
  | [] => O
  | c :: l' => ((if p c then 1 else 0) + count_calls p l')%nat
  end.

Definition is_logRequest (c : LogCall) : bool :=
  match c with
  | logRequest _ _ _ _ _ => true
  | _ => false
  end.

Definition is_logAborted (c : LogCall) : bool :=
  match c with
  | logAborted _ _ => true
  | _ => false
  end.

(** The character [_] (code 95). *)
Definition underscore : Ascii.ascii := Ascii.ascii_of_nat 95.

(** No character of [x] is an underscore. *)
Fixpoint no_underscore (x : string) : bool :=
  match x with
  | EmptyString => true
  | String a x' => negb (Ascii.eqb a underscore) && no_underscore x'
  end.

(** The registered ids and the logged aborts are covered by the logged
    requests. *)
Definition balanced (s : State) : Prop :=
  (size (abortSubjects s) + count_calls is_logAborted (aiLogger s)
   ≤ count_calls is_logRequest (aiLogger s))%nat.

(** * StoryListComponent: preview and word count of a story

    A JavaScript string is a sequence of UTF-16 code units: [length] and
    [substring] count code units, and [trim] and the class [\s] of regular
    expressions test single code units. *)

(** An ASCII literal as code units. *)
Definition utf16 (x : string) : list N :=
  map Ascii.N_of_ascii (String.list_ascii_of_string x).

(** The code units matched by [\s] and removed by [trim]: the white space
    and line terminators of ECMAScript. *)
Definition isWhiteSpace (c : N) : bool :=
  ((c =? 9) || (c =? 10) || (c =? 11) || (c =? 12) || (c =? 13) || (c =? 32)
   || (c =? 160) || (c =? 5760) || ((8192 <=? c) && (c <=? 8202))
   || (c =? 8232) || (c =? 8233) || (c =? 8239) || (c =? 8287)
   || (c =? 12288) || (c =? 65279))%N.

Fixpoint trimStart (x : list N) : list N :=
  match x with
  | [] => []
  | c :: x' => if isWhiteSpace c then trimStart x' else x
  end.

Fixpoint trimEnd (x : list N) : list N :=
  match x with
  | [] => []
  | c :: x' =>
      match trimEnd x' with
      | [] => if isWhiteSpace c then [] else [c]
      | t => c :: t
      end
  end.

(** [x.trim()] *)
Definition trim (x : list N) : list N := trimEnd (trimStart x).

(** [x.split(/\s+/)]: the pieces between the maximal runs of white space;
    a run at the start or at the end leaves an empty piece there, and the
    empty string gives one empty piece. *)
Fixpoint split_ws (x : list N) : list (list N) :=
  match x with
  | [] => [[]]
  | c :: x' =>
      if isWhiteSpace c then
        match x' with
        | d :: _ => if isWhiteSpace d then split_ws x' else [] :: split_ws x'
        | [] => [[]; []]
        end
      else
        match split_ws x' with
        | piece :: pieces => (c :: piece) :: pieces
        | [] => [[c]]
        end
  end.

(** [text.trim().split(/\s+/).filter(word => word.length > 0).length] *)
Definition countWords (text : list N) : nat :=
  length (filter (λ word : list N, (0 < length word)%nat) (split_ws (trim text))).

(** [c.length > 150 ? c.substring(0, 150) + '...' : c] *)
Definition ellipsis150 (c : list N) : list N :=
  if (150 <? length c)%nat then take 150 c ++ utf16 "..." else c.

(** [content || ''] *)
Definition or_empty (content : option (list N)) : list N :=
  match content with
  | Some x => x
  | None => []
  end.

(** The fields of a story read by the component; the [Story] interface
    itself is declared in another file of the application. *)
Record Scene := {
  scene_content : option (list N)
}.

Record Chapter := {
  scenes : option (list Scene)
}.

Record Story := {
  story_content : option (list N);
  chapters : option (list Chapter)
}.

Definition getStoryPreview (story : Story) : list N :=
  match story_content story with
  | Some (c :: x) => ellipsis150 (c :: x)
  | _ =>
      match chapters story with
      | Some (chapter0 :: _) =>
          match scenes chapter0 with
          | Some (firstScene :: _) => ellipsis150 (or_empty (scene_content firstScene))
          | _ => utf16 "Noch kein Inhalt..."
          end
      | _ => utf16 "Noch kein Inhalt..."
      end
  end.

Definition getWordCount (story : Story) : nat :=
  match story_content story with
  | Some (c :: x) => countWords (c :: x)
  | _ =>
      match chapters story with
      | Some chs =>
          foldl (λ totalWords chapter,
                   match scenes chapter with
                   | Some scs =>
                       foldl (λ total scene,
                                (total + countWords (or_empty (scene_content scene)))%nat)
                         totalWords scs
                   | None => totalWords
                   end) O chs
      | None => O
      end
  end.

(** The number of pieces of a split that are not empty. *)
Definition nonempty_pieces (l : list (list N)) : nat :=
  length (filter (λ word : list N, (0 < length word)%nat) l).

(** The number of maximal runs of code units that are not white space;
    [after_ws] tells whether the position before [x] is the start of the
    text or white space. *)
Fixpoint count_runs (after_ws : bool) (x : list N) : nat :=
  match x with
  | [] => O
  | c :: x' =>
      if isWhiteSpace c then count_runs true x'
      else ((if after_ws then 1 else 0) + count_runs false x')%nat
  end.

(** All scenes of a story, chapter after chapter. *)
Definition all_scenes (story : Story) : list Scene :=
  match chapters story with
  | Some chs => concat (map (λ chapter, default [] (scenes chapter)) chs)
  | None => []
  end.

(** * Properties *)

(** ** Truthiness *)

Lemma truthy_string_true x : truthy_string x = true ↔ x ≠ "".
Proof. destruct x; simpl; split; congruence. Qed.

Lemma or_string_Some x b : x ≠ "" → or_string (Some x) b = x.
Proof. intros Hx. simpl. by apply truthy_string_true in Hx as ->. Qed.

(** ** The floor of the quotient by 1.3 *)

(** The rounded quotient is within one half of the exact quotient. *)
Lemma round_half_even_near N d :
  0 < d → 0 ≤ N →
  - d ≤ 2 * (round_half_even N d * d) - 2 * N ≤ d.
Proof.
  intros Hd HN. unfold round_half_even.
  pose proof (Z.div_mod N d ltac:(lia)) as Hdiv.
  pose proof (Z.mod_pos_bound N d Hd) as Hmod.
  destruct (Z.ltb_spec (2 * (N mod d)) d);
    [|destruct (Z.ltb_spec d (2 * (N mod d))); [|destruct (Z.even (N / d))]];
    nia.
Qed.

(** The quotient of [m] by 1.3 is scaled by a power of two [2^s] into
    [2^52, 2^53) and rounded there to the nearest integer [n]. *)
Lemma fdiv_1_3_normal m :
  1 ≤ m → m < 2 ^ 51 →
  exists s n,
    0 < s /\ fdiv_1_3 m = (n, - s)
    /\ d1_3 ≤ m * 2 ^ s < 2 * d1_3
    /\ - d1_3 ≤ 2 * (n * d1_3) - 2 * (m * 2 ^ 52 * 2 ^ s) ≤ d1_3.
Proof.
  intros Hm Hlt. unfold fdiv_1_3.
  rewrite Z.log2_mul_pow2 by lia.
  change (Z.log2 d1_3) with 52.
  replace (52 + Z.log2 m - 52) with (Z.log2 m) by lia.
  pose proof (Z.log2_spec m ltac:(lia)) as [Hlo Hhi].
  assert (0 ≤ Z.log2 m) as HL0 by apply Z.log2_nonneg.
  assert (Z.log2 m < 51) as HL by (apply Z.log2_lt_pow2; lia).
  set (L := Z.log2 m) in *.
  assert (2 ^ L * 2 ^ (52 - L) = 2 ^ 52) as Hsplit.
  { rewrite <- Z.pow_add_r by lia. f_equal. lia. }
  assert (0 < 2 ^ L) as HA by (apply Z.pow_pos_nonneg; lia).
  assert (0 < 2 ^ (52 - L)) as HB by (apply Z.pow_pos_nonneg; lia).
  assert (2 ^ (53 - L) = 2 * 2 ^ (52 - L)) as Hnext.
  { replace (53 - L) with (Z.succ (52 - L)) by lia. rewrite Z.pow_succ_r by lia. done. }
  rewrite Z.pow_succ_r in Hhi by lia.
  change (2 ^ 52) with 4503599627370496 in *.
  unfold d1_3 in *.
  set (A := 2 ^ L) in *. set (B := 2 ^ (52 - L)) in *.
  destruct (Z.ltb_spec (m * 4503599627370496) (5854679515581645 * A)) as [Hc|Hc].
  - exists (53 - L), (round_half_even (m * 4503599627370496 * 2 ^ (53 - L)) 5854679515581645).
    replace (L - 1 - 52) with (- (53 - L)) by lia.
    destruct (Z.leb_spec 0 (- (53 - L))); [lia|].
    rewrite Z.opp_involutive. rewrite Hnext.
    split; [lia|]. split; [done|]. split; [nia|].
    apply round_half_even_near; nia.
  - exists (52 - L), (round_half_even (m * 4503599627370496 * 2 ^ (52 - L)) 5854679515581645).
    replace (L - 52) with (- (52 - L)) by lia.
    destruct (Z.leb_spec 0 (- (52 - L))); [lia|].
    rewrite Z.opp_involutive. fold B.
    split; [lia|]. split; [done|]. split; [nia|].
    apply round_half_even_near; nia.
Qed.

(** A power of two above [c ≥ 2^k] is at least [2^(k+1)]. *)
Lemma pow2_gt_ge s c k :
  0 ≤ s → 0 ≤ k → 2 ^ k ≤ c → c < 2 ^ s → 2 ^ (k + 1) ≤ 2 ^ s.
Proof.
  intros Hs Hk Hc Hlt.
  destruct (Z_lt_le_dec s (k + 1)) as [Hsmall|Hbig].
  - assert (2 ^ s ≤ 2 ^ k) by (apply Z.pow_le_mono_r; lia). lia.
  - apply Z.pow_le_mono_r; lia.
Qed.

(** Below [2^50 * 1.3] the binary64 floor is the exact floor. *)
Lemma Math_floor_div_1_3_pos m :
  1 ≤ m → 4 * m < d1_3 → Math_floor_div_1_3 m = 10 * m / 13.
Proof.
  intros Hm Hbound.
  destruct (fdiv_1_3_normal m Hm) as (s & n & Hs & Hf & Hnorm & Hnear).
  { unfold d1_3 in Hbound. change (2 ^ 51) with 2251799813685248. lia. }
  unfold Math_floor_div_1_3. destruct m as [|p|p]; [lia| |lia].
  rewrite Hf. unfold Math_floor.
  destruct (Z.leb_spec 0 (- s)); [lia|]. rewrite Z.opp_involutive.
  assert (2 ^ (2 + 1) ≤ 2 ^ s) as Hw.
  { apply (pow2_gt_ge s 4 2); [lia|lia|done|]. unfold d1_3 in *. nia. }
  change (2 ^ (2 + 1)) with 8 in Hw.
  pose proof (Z.div_mod (10 * Z.pos p) 13 ltac:(lia)) as Hdiv.
  pose proof (Z.mod_pos_bound (10 * Z.pos p) 13 ltac:(lia)) as Hmod.
  set (t := 10 * Z.pos p / 13) in *. set (r := (10 * Z.pos p) mod 13) in *.
  set (w := 2 ^ s) in *.
  change (2 ^ 52) with 4503599627370496 in *. unfold d1_3 in *.
  assert (10 * (Z.pos p * w) = 13 * (t * w) + r * w) as Heq by nia.
  assert (0 ≤ r * w ≤ 12 * w) as Hrw by nia.
  assert (Z.pos p * 4503599627370496 * w = 4503599627370496 * (Z.pos p * w)) as Hre by ring.
  rewrite Hre in Hnear.
  set (U := Z.pos p * w) in *. set (V := t * w) in *. set (R := r * w) in *.
  symmetry. apply (Z.div_unique n w t (n - V)); [|unfold V; ring].
  left. lia.
Qed.

(** So it is for negative counts above [- 2^49 * 1.3]. *)
Lemma Math_floor_div_1_3_neg m :
  1 ≤ m → 16 * m < d1_3 → Math_floor_div_1_3 (- m) = 10 * (- m) / 13.
Proof.
  intros Hm Hbound.
  destruct (fdiv_1_3_normal m Hm) as (s & n & Hs & Hf & Hnorm & Hnear).
  { unfold d1_3 in Hbound. change (2 ^ 51) with 2251799813685248. lia. }
  unfold Math_floor_div_1_3. destruct m as [|p|p]; [lia| |lia].
  change (- Z.pos p) with (Z.neg p). cbv iota beta.
  change (- Z.neg p) with (Z.pos p).
  rewrite Hf. unfold Math_floor.
  destruct (Z.leb_spec 0 (- s)); [lia|]. rewrite Z.opp_involutive.
  assert (2 ^ (3 + 1) ≤ 2 ^ s) as Hw.
  { apply (pow2_gt_ge s 8 3); [lia|lia|done|]. unfold d1_3 in *. nia. }
  change (2 ^ (3 + 1)) with 16 in Hw.
  pose proof (Z.div_mod (10 * Z.neg p) 13 ltac:(lia)) as Hdiv.
  pose proof (Z.mod_pos_bound (10 * Z.neg p) 13 ltac:(lia)) as Hmod.
  set (t := 10 * Z.neg p / 13) in *. set (r := (10 * Z.neg p) mod 13) in *.
  set (w := 2 ^ s) in *.
  change (2 ^ 52) with 4503599627370496 in *. unfold d1_3 in *.
  assert (- 10 * (Z.pos p * w) = 13 * (t * w) + r * w) as Heq by nia.
  assert (0 ≤ r * w ≤ 12 * w) as Hrw by nia.
  assert (Z.pos p * 4503599627370496 * w = 4503599627370496 * (Z.pos p * w)) as Hre by ring.
  rewrite Hre in Hnear.
  set (U := Z.pos p * w) in *. set (V := t * w) in *. set (R := r * w) in *.
  symmetry. apply (Z.div_unique (- n) w t (- n - V)); [|unfold V; ring].
  left. lia.
Qed.

Lemma Math_floor_div_1_3_exact m :
  - 300000000000000 ≤ m ≤ 1000000000000000 →
  Math_floor_div_1_3 m = 10 * m / 13.
Proof.
  intros Hm. destruct (Z.lt_trichotomy m 0) as [Hneg|[->|Hpos]].
  - replace m with (- (- m)) by lia.
    apply Math_floor_div_1_3_neg; unfold d1_3; lia.
  - reflexivity.
  - apply Math_floor_div_1_3_pos; unfold d1_3; lia.
Qed.

(** ** [generateText]: what a call that passes validation does *)

Lemma generateText_Return prompt options env s o s' :
  generateText prompt options env s = (Return o, s') →
  passes_validation options env
  ∧ o = {| ob_request := build_request prompt
                           (or_string (opt_model options) (cfg_model (getSettings env)))
                           options (getSettings env);
           ob_headers := build_headers (getSettings env) env;
           ob_requestId := or_string (opt_requestId options) (generateRequestId env);
           ob_abortSubject := length (subjects s);
           ob_logId := logRequest_result env;
           ob_startTime := Date_now env |}
  ∧ abortSubjects s' = <[ob_requestId o := ob_abortSubject o]> (abortSubjects s)
  ∧ requestMetadata s' =
      <[ob_requestId o := {| logId := ob_logId o; startTime := ob_startTime o |}]>
        (requestMetadata s)
  ∧ aiLogger s' =
      aiLogger s ++ [logRequest API_URL (model (ob_request o))
                       (resolve_wordCount options) (resolve_maxTokens options) prompt]
  ∧ subjects s' = subjects s ++ [ {| isStopped := false |} ]
  ∧ observables s' = observables s
  ∧ subscriptions s' = subscriptions s.
Proof.
  unfold generateText, passes_validation.
  destruct (enabled (getSettings env)); simpl; [|discriminate].
  destruct (truthy_string (apiKey (getSettings env))) eqn:Hkey; simpl; [|discriminate].
  destruct (truthy_string (or_string _ _)) eqn:Hmodel; simpl; [|discriminate].
  intros [= <- <-]. simpl.
  apply truthy_string_true in Hkey, Hmodel. done.
Qed.

Lemma generateText_passes prompt options env s :
  passes_validation options env →
  ∃ o s', generateText prompt options env s = (Return o, s').
Proof.
  intros (Hen & Hkey & Hmodel). unfold generateText.
  rewrite Hen. apply truthy_string_true in Hkey as ->, Hmodel as ->.
  simpl. eauto.
Qed.

(** ** Validation *)

(** C3: when the integration is disabled, the API key is missing, or no
    model can be resolved from the override or the configured default,
    [generateText] throws and leaves the whole state as it was: the audit
    logger received no call and neither map changed. *)
Theorem generateText_validation_failure prompt options env s :
  enabled (getSettings env) = false
  ∨ apiKey (getSettings env) = ""
  ∨ ((opt_model options = None ∨ opt_model options = Some "")
     ∧ cfg_model (getSettings env) = "") →
  ∃ msg, generateText prompt options env s = (Throw (Error msg), s)
    ∧ (msg = "OpenRouter API ist nicht aktiviert oder API-Key fehlt"
       ∨ msg = "Kein AI-Modell ausgewählt").
Proof.
  intros Hfail. unfold generateText.
  destruct (enabled (getSettings env)) eqn:Hen; simpl; [|eauto].
  destruct (truthy_string (apiKey (getSettings env))) eqn:Hkey; simpl; [|eauto].
  destruct Hfail as [?|[Hk|[Hopt Hcfg]]]; [done| |].
  - apply truthy_string_true in Hkey. done.
  - assert (or_string (opt_model options) (cfg_model (getSettings env)) = "") as ->.
    { rewrite Hcfg. by destruct Hopt as [-> | ->]. }
    simpl. eauto.
Qed.

Lemma generateText_validation_failure_witness :
  ∃ msg, generateText "Once upon a time" no_options
           (sample_env disabled_settings 1000 "log-1") initial
         = (Throw (Error msg), initial)
    ∧ (msg = "OpenRouter API ist nicht aktiviert oder API-Key fehlt"
       ∨ msg = "Kein AI-Modell ausgewählt").
Proof.
  apply generateText_validation_failure. left. reflexivity.
Defined.

(** C10: an empty-string model override behaves as an absent one: the
    configured default is used, the call fails only when that default is
    empty too, and the model of a built payload is never empty. *)
Theorem empty_model_override_is_absent prompt options env s :
  opt_model options = Some "" →
  generateText prompt options env s
    = generateText prompt (with_model None options) env s
  ∧ (∀ o s', generateText prompt options env s = (Return o, s') →
       model (ob_request o) = cfg_model (getSettings env)
       ∧ model (ob_request o) ≠ "")
  ∧ (enabled (getSettings env) = true → apiKey (getSettings env) ≠ "" →
       ((∃ e, (generateText prompt options env s).1 = Throw e)
        ↔ cfg_model (getSettings env) = "")).
Proof.
  intros Hopt. split; [|split].
  - unfold generateText, build_request, resolve_wordCount, resolve_maxTokens.
    rewrite Hopt. reflexivity.
  - intros o s' Hgen.
    apply generateText_Return in Hgen as ((_ & _ & Hmodel) & -> & _).
    simpl. rewrite Hopt in Hmodel |- *. done.
  - intros Hen Hkey. split.
    + intros [e He]. destruct (decide (cfg_model (getSettings env) = "")) as [|Hne]; [done|].
      destruct (generateText_passes prompt options env s) as (o & s' & Hgen).
      { split_and!; [done..|]. by rewrite Hopt. }
      rewrite Hgen in He. discriminate.
    + intros Hcfg. unfold generateText. rewrite Hen, Hopt, Hcfg.
      apply truthy_string_true in Hkey as ->. simpl. eauto.
Qed.

Lemma empty_model_override_is_absent_witness :
  generateText "p" (with_model (Some "") no_options) (sample_env sample_settings 5 "l") initial
    = generateText "p" (with_model None (with_model (Some "") no_options))
        (sample_env sample_settings 5 "l") initial.
Proof.
  apply (empty_model_override_is_absent "p" (with_model (Some "") no_options)
           (sample_env sample_settings 5 "l") initial).
  reflexivity.
Defined.

(** ** The assembled payload *)

(** The claim of C7 fails at an explicit zero: [{maxTokens: 0}] is sent as
    [max_tokens: 500]. *)
Lemma maxTokens_zero_is_replaced :
  match generateText "p" (with_maxTokens 0) (sample_env sample_settings 5 "l") initial with
  | (Return o, _) =>
      max_tokens (ob_request o) = Some 500 ∧ max_tokens (ob_request o) ≠ Some 0
  | (Throw _, _) => False
  end.
Proof. vm_compute. split; [reflexivity|discriminate]. Qed.

(** C7, amended: the max-tokens value of the payload is [options.maxTokens]
    when that field is present and not zero, and 500 otherwise. *)
Theorem maxTokens_truthiness prompt options env s o s' :
  generateText prompt options env s = (Return o, s') →
  max_tokens (ob_request o)
    = Some (match opt_maxTokens options with
            | Some 0 => 500
            | Some n => n
            | None => 500
            end).
Proof.
  intros Hgen. apply generateText_Return in Hgen as (_ & -> & _). simpl.
  unfold resolve_maxTokens, or_number, truthy_number.
  by destruct (opt_maxTokens options) as [[| |]|].
Qed.

Lemma maxTokens_truthiness_witness :
  ∃ o, (generateText "p" (with_maxTokens 130) (sample_env sample_settings 5 "l") initial).1
         = Return o
       ∧ max_tokens (ob_request o) = Some 130.
Proof.
  eexists. split; [reflexivity|].
  apply (maxTokens_truthiness "p" (with_maxTokens 130) (sample_env sample_settings 5 "l")
           initial _ _ eq_refl).
Defined.

(** C8: temperature and top-p of the payload are the caller's values when
    present and the configured defaults otherwise; an explicit zero is sent
    as zero. *)
Theorem temperature_topP_presence prompt options env s o s' :
  generateText prompt options env s = (Return o, s') →
  temperature (ob_request o)
    = Some (match opt_temperature options with
            | Some t => t
            | None => cfg_temperature (getSettings env)
            end)
  ∧ top_p (ob_request o)
    = Some (match opt_topP options with
            | Some t => t
            | None => cfg_topP (getSettings env)
            end)
  ∧ (opt_temperature options = Some (0 # 1) → temperature (ob_request o) = Some (0 # 1))
  ∧ (opt_topP options = Some (0 # 1) → top_p (ob_request o) = Some (0 # 1)).
Proof.
  intros Hgen. apply generateText_Return in Hgen as (_ & -> & _). simpl.
  split_and!; try done.
  - by intros ->.
  - by intros ->.
Qed.

Lemma temperature_topP_presence_witness :
  ∃ o, (generateText "p" (with_temperature (0 # 1)) (sample_env sample_settings 5 "l")
          initial).1 = Return o
       ∧ temperature (ob_request o) = Some (0 # 1)
       ∧ top_p (ob_request o) = Some (1 # 1).
Proof.
  eexists. split; [reflexivity|].
  destruct (temperature_topP_presence "p" (with_temperature (0 # 1))
              (sample_env sample_settings 5 "l") initial _ _ eq_refl) as (Ht & Hp & _).
  split; [exact Ht|exact Hp].
Defined.

(** C9: without [options.wordCount] the word-count hint given to
    [logRequest] is [Math.floor(maxTokens / 1.3)]: the floor of the binary64
    quotient, which is the exact floor of [10 * maxTokens / 13] for every
    token count from -3 * 10^14 to 10^15, and 100 for [{maxTokens: 130}];
    the payload does not depend on the word count. *)
Theorem wordCount_hint_default prompt options env s o s' :
  opt_wordCount options = None →
  generateText prompt options env s = (Return o, s') →
  let maxTokens := resolve_maxTokens options in
  (- 300000000000000 ≤ maxTokens ≤ 1000000000000000 →
     aiLogger s' = aiLogger s ++ [logRequest API_URL (model (ob_request o))
                                    (10 * maxTokens / 13) maxTokens prompt])
  ∧ aiLogger s' = aiLogger s ++ [logRequest API_URL (model (ob_request o))
                                   (Math_floor_div_1_3 maxTokens) maxTokens prompt]
  ∧ (opt_maxTokens options = Some 130 →
       aiLogger s' = aiLogger s ++ [logRequest API_URL (model (ob_request o))
                                      100 130 prompt])
  ∧ (∀ w, ∃ o2 s2,
       generateText prompt (with_wordCount w options) env s = (Return o2, s2)
       ∧ ob_request o2 = ob_request o).
Proof.
  intros Hwc Hgen maxTokens.
  pose proof Hgen as Hret.
  apply generateText_Return in Hret as (Hpass & Ho & _ & _ & Hlog & _).
  assert (aiLogger s' = aiLogger s ++ [logRequest API_URL (model (ob_request o))
                                         (Math_floor_div_1_3 maxTokens) maxTokens prompt])
    as Hhint.
  { rewrite Hlog. unfold resolve_wordCount. rewrite Hwc. reflexivity. }
  split_and!.
  - intros Hrange. rewrite Hhint. by rewrite Math_floor_div_1_3_exact.
  - exact Hhint.
  - intros Hmax. rewrite Hhint. unfold maxTokens, resolve_maxTokens.
    rewrite Hmax. reflexivity.
  - intros w.
    destruct (generateText_passes prompt (with_wordCount w options) env s)
      as (o2 & s2 & Hgen2); [exact Hpass|].
    exists o2, s2. split; [done|].
    apply generateText_Return in Hgen2 as (_ & -> & _). by rewrite Ho.
Qed.

Lemma wordCount_hint_default_witness :
  aiLogger (generateText "Once upon a time" (with_maxTokens 130)
              (sample_env sample_settings 5 "log-1") initial).2
  = [logRequest API_URL "openai/gpt-4o" 100 130 "Once upon a time"].
Proof.
  destruct (wordCount_hint_default "Once upon a time" (with_maxTokens 130)
              (sample_env sample_settings 5 "log-1") initial _ _ eq_refl eq_refl)
    as (Hlog & _).
  apply Hlog. split; vm_compute; discriminate.
Defined.

(** ** Registration *)

(** The claim of C6 fails: a second call with the request id of a request
    that is still registered returns an observable, and both maps now hold
    the entries of the second call. *)
Lemma duplicate_requestId_overwrites :
  let s := (generateText "first" (with_requestId "dup")
              (sample_env sample_settings 1000 "log-1") initial).2 in
  abortSubjects s !! "dup" = Some 0%nat
  ∧ requestMetadata s !! "dup" = Some {| logId := "log-1"; startTime := 1000 |}
  ∧ match generateText "second" (with_requestId "dup")
            (sample_env sample_settings 2000 "log-2") s with
    | (Return _, s') =>
        abortSubjects s' !! "dup" = Some 1%nat
        ∧ requestMetadata s' !! "dup" = Some {| logId := "log-2"; startTime := 2000 |}
    | (Throw _, _) => False
    end.
Proof. vm_compute. done. Qed.

(** C6, amended: registration never fails.  A call that passes validation
    with a non-empty [options.requestId] returns an observable whatever the
    maps hold, and sets the entry of that id in both maps to the new handle
    and the new metadata, replacing entries that were there. *)
Theorem generateText_registers_by_overwrite prompt options env s id :
  opt_requestId options = Some id → id ≠ "" →
  passes_validation options env →
  ∃ o s', generateText prompt options env s = (Return o, s')
    ∧ ob_requestId o = id
    ∧ ob_abortSubject o = length (subjects s)
    ∧ abortSubjects s' = <[id := length (subjects s)]> (abortSubjects s)
    ∧ requestMetadata s'
        = <[id := {| logId := logRequest_result env; startTime := Date_now env |}]>
            (requestMetadata s).
Proof.
  intros Hid Hne Hpass.
  destruct (generateText_passes prompt options env s Hpass) as (o & s' & Hgen).
  exists o, s'. split; [done|].
  apply generateText_Return in Hgen as (_ & Ho & Hsub & Hmeta & _).
  assert (ob_requestId o = id) as Hoid.
  { rewrite Ho. simpl. rewrite Hid. by apply or_string_Some. }
  rewrite Hsub, Hmeta, Hoid. rewrite Ho. done.
Qed.

Lemma generateText_registers_by_overwrite_witness :
  let s := (generateText "first" (with_requestId "dup")
              (sample_env sample_settings 1000 "log-1") initial).2 in
  ∃ o s', generateText "second" (with_requestId "dup")
            (sample_env sample_settings 2000 "log-2") s = (Return o, s')
    ∧ ob_requestId o = "dup"
    ∧ ob_abortSubject o = length (subjects s)
    ∧ abortSubjects s' = <["dup" := length (subjects s)]> (abortSubjects s)
    ∧ requestMetadata s'
        = <["dup" := {| logId := "log-2"; startTime := 2000 |}]> (requestMetadata s).
Proof.
  intros s.
  apply (generateText_registers_by_overwrite "second" (with_requestId "dup")
           (sample_env sample_settings 2000 "log-2") s "dup").
  - reflexivity.
  - discriminate.
  - split_and!; [reflexivity|discriminate|discriminate].
Defined.

(** ** The runtime: subjects and subscriptions *)

Lemma stopped_false_alloc h s : stopped h s = false → (h < length (subjects s))%nat.
Proof.
  unfold stopped. destruct (subjects s !! h) eqn:Hl; [|discriminate].
  intros _. by eapply lookup_lt_Some.
Qed.

Lemma sub_source_notify f h sb : sub_source (notify f h sb) = sub_source sb.
Proof. unfold notify. by case_decide. Qed.

Lemma sub_state_notify f h sb :
  sub_state (notify f h sb)
    = if decide (ob_abortSubject (sub_source sb) = h) then f (sub_state sb)
      else sub_state sb.
Proof. unfold notify. by case_decide. Qed.

Lemma stopped_Subject_complete h h' s :
  stopped h (Subject_complete h' s) = if decide (h = h') then true else stopped h s.
Proof.
  unfold Subject_complete. destruct (stopped h' s) eqn:Hst.
  - case_decide; congruence.
  - apply stopped_false_alloc in Hst. unfold stopped. simpl.
    case_decide as Heq.
    + subst h'. by rewrite list_lookup_insert_eq.
    + by rewrite list_lookup_insert_ne.
Qed.

Lemma subjects_length_Subject_complete h s :
  length (subjects (Subject_complete h s)) = length (subjects s).
Proof.
  unfold Subject_complete. destruct (stopped h s); [done|].
  simpl. apply length_insert.
Qed.

Lemma subscriptions_Subject_complete h s :
  subscriptions (Subject_complete h s)
    = if stopped h s then subscriptions s
      else notify on_complete h <$> subscriptions s.
Proof. unfold Subject_complete. by destruct (stopped h s). Qed.

(** ** [cleanupRequest], field by field *)

Lemma abortSubjects_cleanupRequest id s :
  abortSubjects (cleanupRequest id s) = delete id (abortSubjects s).
Proof.
  unfold cleanupRequest, Subject_complete.
  destruct (abortSubjects s !! id) as [h|] eqn:Hl; simpl.
  - by destruct (stopped h s).
  - by rewrite delete_id.
Qed.

Lemma requestMetadata_cleanupRequest id s :
  requestMetadata (cleanupRequest id s) = delete id (requestMetadata s).
Proof.
  unfold cleanupRequest, Subject_complete.
  destruct (abortSubjects s !! id) as [h|]; simpl; [|done].
  by destruct (stopped h s).
Qed.

Lemma aiLogger_cleanupRequest id s : aiLogger (cleanupRequest id s) = aiLogger s.
Proof.
  unfold cleanupRequest, Subject_complete.
  destruct (abortSubjects s !! id) as [h|]; simpl; [|done].
  by destruct (stopped h s).
Qed.

Lemma observables_cleanupRequest id s :
  observables (cleanupRequest id s) = observables s.
Proof.
  unfold cleanupRequest, Subject_complete.
  destruct (abortSubjects s !! id) as [h|]; simpl; [|done].
  by destruct (stopped h s).
Qed.

Lemma stopped_cleanupRequest h id s :
  stopped h (cleanupRequest id s)
    = match abortSubjects s !! id with
      | Some h' => if decide (h = h') then true else stopped h s
      | None => stopped h s
      end.
Proof.
  unfold cleanupRequest.
  destruct (abortSubjects s !! id) as [h'|]; [|done].
  apply (stopped_Subject_complete h h' s).
Qed.

Lemma subjects_length_cleanupRequest id s :
  length (subjects (cleanupRequest id s)) = length (subjects s).
Proof.
  unfold cleanupRequest.
  destruct (abortSubjects s !! id) as [h'|]; [|done].
  apply (subjects_length_Subject_complete h' s).
Qed.

Lemma subscriptions_cleanupRequest id s :
  subscriptions (cleanupRequest id s)
    = match abortSubjects s !! id with
      | Some h => if stopped h s then subscriptions s
                  else notify on_complete h <$> subscriptions s
      | None => subscriptions s
      end.
Proof.
  unfold cleanupRequest.
  destruct (abortSubjects s !! id) as [h'|]; [|done].
  apply (subscriptions_Subject_complete h' s).
Qed.

(** Releasing an id that is not registered changes nothing. *)
Lemma cleanupRequest_unregistered id s :
  abortSubjects s !! id = None → requestMetadata s !! id = None →
  cleanupRequest id s = s.
Proof.
  intros Hs Hm. unfold cleanupRequest, set_requestMetadata. rewrite Hs.
  rewrite (delete_id _ _ Hm). by destruct s.
Qed.

Lemma closed_at_fmap_notify f h (i : nat) (l : list Subscription) (sb : Subscription) :
  (∀ st, st = Closed → f st = Closed) →
  l !! i = Some sb → sub_state sb = Closed →
  ∃ sb', (notify f h <$> l) !! i = Some sb' ∧ sub_state sb' = Closed.
Proof.
  intros Hf Hl Hst. exists (notify f h sb). split.
  - by rewrite list_lookup_fmap, Hl.
  - rewrite sub_state_notify. case_decide; auto.
Qed.

Lemma closed_at_cleanupRequest i id s :
  closed_at i s → closed_at i (cleanupRequest id s).
Proof.
  intros (sb & Hl & Hst). unfold closed_at.
  rewrite subscriptions_cleanupRequest.
  destruct (abortSubjects s !! id) as [h|]; [|eauto].
  destruct (stopped h s); [eauto|].
  eapply closed_at_fmap_notify; eauto. by intros ? ->.
Qed.

Lemma settle_closed i out now s : closed_at i s → settle i out now s = s.
Proof. intros (sb & Hl & Hst). unfold settle. by rewrite Hl, Hst. Qed.

Lemma closed_at_abortRequest i id now s :
  closed_at i s → closed_at i (abortRequest id now s).
Proof.
  intros Hc. unfold abortRequest.
  destruct (abortSubjects s !! id) as [h|]; [|done].
  destruct (requestMetadata s !! id) as [md|]; [|done].
  apply closed_at_cleanupRequest.
  destruct Hc as (sb & Hl & Hst). unfold closed_at, Subject_next.
  destruct (stopped h _); simpl; [eauto|].
  eapply closed_at_fmap_notify; eauto. by intros ? ->.
Qed.

Lemma generateText_Throw prompt options env s e s' :
  generateText prompt options env s = (Throw e, s') → s' = s.
Proof.
  unfold generateText.
  destruct (negb _ || negb _); [by intros [= _ <-]|].
  destruct (negb _); [by intros [= _ <-]|].
  discriminate.
Qed.

Lemma closed_at_step i ev s : closed_at i s → closed_at i (step s ev).
Proof.
  intros Hc. destruct ev as [prompt options env|o|j out now|id now]; simpl.
  - destruct (generateText prompt options env s) as [[e|o] s'] eqn:Hgen.
    + by apply generateText_Throw in Hgen as ->.
    + apply generateText_Return in Hgen as (_ & _ & _ & _ & _ & _ & _ & Hsubs).
      unfold closed_at. simpl. by rewrite Hsubs.
  - destruct (observables s !! o) as [ob|]; [|done].
    destruct Hc as (sb & Hl & Hst). exists sb. split; [|done].
    unfold subscribe. simpl. rewrite lookup_app_l; [done|].
    by eapply lookup_lt_Some.
  - unfold settle.
    destruct (subscriptions s !! j) as [sbj|] eqn:Hlj; [|done].
    destruct (sub_state sbj) eqn:Hstj; [| |done].
    all: assert (closed_at i (match out with
            | Response response => tap_next (sub_source sbj) response now s
            | Failure err => tap_error (sub_source sbj) err now s
            end)) as (sb' & Hl' & Hst')
      by (destruct out; apply closed_at_cleanupRequest; exact Hc).
    all: unfold closed_at; simpl; rewrite list_lookup_alter;
      case_decide; subst; rewrite Hl'; simpl; eauto.
  - by apply closed_at_abortRequest.
Qed.

Lemma Inv_initial : Inv initial.
Proof. by constructor. Qed.

Lemma Inv_call_aiLogger c s : Inv s → Inv (call_aiLogger c s).
Proof. intros [H1 H2 H3 H4 H5 H6]. by constructor. Qed.

Lemma Inv_Subject_next h s : Inv s → Inv (Subject_next h s).
Proof.
  intros HI. unfold Subject_next. destruct (stopped h s); [done|].
  destruct HI as [H1 H2 H3 H4 H5 H6].
  constructor; simpl; try done.
  - intros i sb. rewrite list_lookup_fmap.
    destruct (subscriptions s !! i) as [sb0|] eqn:Hl; [|done].
    intros [= <-]. rewrite sub_state_notify, sub_source_notify.
    intros Hst. apply (H4 i sb0 Hl).
    case_decide; [|done]. by destruct (sub_state sb0).
  - intros i sb. rewrite list_lookup_fmap.
    destruct (subscriptions s !! i) as [sb0|] eqn:Hl; [|done].
    intros [= <-]. rewrite sub_source_notify. eauto.
Qed.

Lemma stopped_cleanupRequest_mono h id s :
  stopped h s = true → stopped h (cleanupRequest id s) = true.
Proof.
  intros Hst. rewrite stopped_cleanupRequest.
  destruct (abortSubjects s !! id); [|done]. by case_decide.
Qed.

Lemma Inv_cleanupRequest id s : Inv s → Inv (cleanupRequest id s).
Proof.
  intros [H1 H2 H3 H4 H5 H6]. constructor.
  - rewrite abortSubjects_cleanupRequest, requestMetadata_cleanupRequest.
    by rewrite !dom_delete_L, H1.
  - intros id' h. rewrite abortSubjects_cleanupRequest.
    intros [Hne Hl]%lookup_delete_Some.
    rewrite stopped_cleanupRequest.
    destruct (abortSubjects s !! id) as [h'|] eqn:Hid; [|eauto].
    case_decide as Heq; [|eauto].
    subst h'. destruct Hne. eauto.
  - intros id1 id2 h. rewrite abortSubjects_cleanupRequest.
    intros [_ Hl1]%lookup_delete_Some [_ Hl2]%lookup_delete_Some. eauto.
  - intros i sb. rewrite subscriptions_cleanupRequest.
    destruct (abortSubjects s !! id) as [h'|] eqn:Hid.
    2:{ intros. apply stopped_cleanupRequest_mono. eauto. }
    destruct (stopped h' s) eqn:Hst.
    { intros. apply stopped_cleanupRequest_mono. eauto. }
    rewrite list_lookup_fmap.
    destruct (subscriptions s !! i) as [sb0|] eqn:Hl; [|done].
    intros [= <-]. rewrite sub_state_notify, sub_source_notify.
    case_decide as Heq.
    + intros _. rewrite stopped_cleanupRequest, Hid. by case_decide.
    + intros. apply stopped_cleanupRequest_mono. eauto.
  - intros i sb. rewrite subscriptions_cleanupRequest, subjects_length_cleanupRequest.
    destruct (abortSubjects s !! id) as [h'|]; [|eauto].
    destruct (stopped h' s); [eauto|].
    rewrite list_lookup_fmap.
    destruct (subscriptions s !! i) as [sb0|] eqn:Hl; [|done].
    intros [= <-]. rewrite sub_source_notify. eauto.
  - intros o ob. rewrite observables_cleanupRequest, subjects_length_cleanupRequest.
    eauto.
Qed.

Lemma Inv_close i s : Inv s → Inv (set_subscriptions (alter close i) s).
Proof.
  intros [H1 H2 H3 H4 H5 H6]. constructor; simpl; try done.
  - intros j sb. rewrite list_lookup_alter. case_decide; [subst j|eauto].
    destruct (subscriptions s !! i); [|done]. by intros [= <-].
  - intros j sb. rewrite list_lookup_alter. case_decide; [subst j|eauto].
    destruct (subscriptions s !! i) as [sb0|] eqn:Hl; [|done].
    intros [= <-]. simpl. eauto.
Qed.

Lemma Inv_subscribe o ob s :
  Inv s → observables s !! o = Some ob → Inv (subscribe ob s).
Proof.
  intros [H1 H2 H3 H4 H5 H6] Hob. constructor; simpl; try done.
  - intros i sb [Hl|[_ Hl]]%lookup_app_Some; [eauto|].
    apply list_lookup_singleton_Some in Hl as [_ <-]. simpl.
    change (stopped (ob_abortSubject ob) (subscribe ob s))
      with (stopped (ob_abortSubject ob) s).
    by destruct (stopped (ob_abortSubject ob) s).
  - intros i sb [Hl|[_ Hl]]%lookup_app_Some; [eauto|].
    apply list_lookup_singleton_Some in Hl as [_ <-]. simpl. eauto.
Qed.

Lemma Inv_generateText prompt options env s o s' :
  Inv s → generateText prompt options env s = (Return o, s') →
  Inv (set_observables (λ l, l ++ [o]) s').
Proof.
  intros [H1 H2 H3 H4 H5 H6] Hgen.
  apply generateText_Return in Hgen
    as (_ & Ho & Hsub & Hmeta & _ & Hsj & Hobs & Hsubs).
  assert (ob_abortSubject o = length (subjects s)) as Hfresh by by rewrite Ho.
  assert (∀ h, (h < length (subjects s))%nat →
            stopped h (set_observables (λ l, l ++ [o]) s') = stopped h s) as Hold.
  { intros h Hh. unfold stopped. simpl. rewrite Hsj. by rewrite lookup_app_l. }
  constructor; simpl.
  - by rewrite Hsub, Hmeta, !dom_insert_L, H1.
  - intros id h. rewrite Hsub. rewrite lookup_insert_Some.
    intros [[_ <-]|[_ Hl]].
    + unfold stopped. simpl. rewrite Hsj, Hfresh.
      rewrite lookup_app_r by lia. by rewrite Nat.sub_diag.
    + rewrite Hold; [eauto|]. apply stopped_false_alloc. eauto.
  - intros id1 id2 h. rewrite Hsub. rewrite !lookup_insert_Some.
    intros [[<- <-]|[Hne1 Hl1]] [[E2 E2']|[Hne2 Hl2]].
    + done.
    + apply H2, stopped_false_alloc in Hl2. lia.
    + apply H2, stopped_false_alloc in Hl1. lia.
    + eauto.
  - rewrite Hsubs. intros i sb Hl Hst. rewrite Hold; eauto.
  - rewrite Hsubs, Hsj, length_app. intros i sb Hl.
    specialize (H5 i sb Hl). lia.
  - rewrite Hobs, Hsj, length_app. simpl.
    intros j ob [Hl|[_ Hl]]%lookup_app_Some.
    + specialize (H6 j ob Hl). lia.
    + apply list_lookup_singleton_Some in Hl as [_ <-]. lia.
Qed.

Lemma Inv_abortRequest id now s : Inv s → Inv (abortRequest id now s).
Proof.
  intros HI. unfold abortRequest.
  destruct (abortSubjects s !! id) as [h|]; [|done].
  destruct (requestMetadata s !! id) as [md|]; [|done].
  by apply Inv_cleanupRequest, Inv_Subject_next, Inv_call_aiLogger.
Qed.

Lemma Inv_settle i out now s : Inv s → Inv (settle i out now s).
Proof.
  intros HI. unfold settle.
  destruct (subscriptions s !! i) as [sb|]; [|done].
  destruct (sub_state sb); [| |done].
  all: apply Inv_close; destruct out;
    by apply Inv_cleanupRequest, Inv_call_aiLogger.
Qed.

Lemma Inv_step ev s : Inv s → Inv (step s ev).
Proof.
  intros HI. destruct ev as [prompt options env|o|i out now|id now]; simpl.
  - destruct (generateText prompt options env s) as [[e|o] s'] eqn:Hgen.
    + by apply generateText_Throw in Hgen as ->.
    + by eapply Inv_generateText.
  - destruct (observables s !! o) as [ob|] eqn:Hob; [|done].
    by eapply Inv_subscribe.
  - by apply Inv_settle.
  - by apply Inv_abortRequest.
Qed.

Lemma Inv_run evs : ∀ s, Inv s → Inv (run evs s).
Proof.
  induction evs as [|ev evs IH]; intros s HI; [done|].
  simpl. by apply IH, Inv_step.
Qed.

Lemma closed_at_run i evs : ∀ s, closed_at i s → closed_at i (run evs s).
Proof.
  induction evs as [|ev evs IH]; intros s Hc; [done|].
  simpl. by apply IH, closed_at_step.
Qed.

Lemma Inv_registered s id :
  Inv s → is_Some (abortSubjects s !! id) ↔ is_Some (requestMetadata s !! id).
Proof. intros HI. rewrite <- !elem_of_dom. by rewrite (inv_dom s HI). Qed.

Lemma aiLogger_Subject_next h s : aiLogger (Subject_next h s) = aiLogger s.
Proof. unfold Subject_next. by destruct (stopped h s). Qed.

Lemma abortRequest_released id now s :
  abortSubjects s !! id = None ∨ requestMetadata s !! id = None →
  abortRequest id now s = s.
Proof.
  unfold abortRequest. intros [-> | Hm]; [done|].
  rewrite Hm. by destruct (abortSubjects s !! id).
Qed.

Lemma settle_pending i sb out now s :
  subscriptions s !! i = Some sb → sub_state sb ≠ Closed →
  settle i out now s
    = set_subscriptions (alter close i)
        (match out with
         | Response response => tap_next (sub_source sb) response now s
         | Failure err => tap_error (sub_source sb) err now s
         end).
Proof.
  intros Hl Hst. unfold settle. rewrite Hl. by destruct (sub_state sb).
Qed.

(** ** The two registries *)

(** C1: in every state the service can reach, an id has an entry in
    [abortSubjects] exactly when it has one in [requestMetadata]; after the
    success or error callback of a pending call has run, and after
    [abortRequest], neither map has an entry for the id. *)
Theorem registries_agree evs :
  let s := run evs initial in
  (∀ id, is_Some (abortSubjects s !! id) ↔ is_Some (requestMetadata s !! id))
  ∧ (∀ i sb out now,
       subscriptions s !! i = Some sb → sub_state sb ≠ Closed →
       let s' := settle i out now s in
       abortSubjects s' !! ob_requestId (sub_source sb) = None
       ∧ requestMetadata s' !! ob_requestId (sub_source sb) = None)
  ∧ (∀ id now,
       let s' := abortRequest id now s in
       abortSubjects s' !! id = None ∧ requestMetadata s' !! id = None).
Proof.
  intros s. assert (Inv s) as HI by apply Inv_run, Inv_initial.
  split_and!.
  - intros id. by apply Inv_registered.
  - intros i sb out now Hl Hst s'. unfold s'.
    rewrite (settle_pending i sb out now s Hl Hst). simpl.
    destruct out; unfold tap_next, tap_error;
      rewrite abortSubjects_cleanupRequest, requestMetadata_cleanupRequest;
      by rewrite !lookup_delete_eq.
  - intros id now s'. unfold s', abortRequest.
    pose proof (Inv_registered s id HI) as Hreg.
    destruct (abortSubjects s !! id) as [h|] eqn:Hs;
      destruct (requestMetadata s !! id) as [md|] eqn:Hm.
    + rewrite abortSubjects_cleanupRequest, requestMetadata_cleanupRequest.
      by rewrite !lookup_delete_eq.
    + destruct Hreg as [Hreg _]. destruct Hreg as [? [=]]. eauto.
    + destruct Hreg as [_ Hreg]. destruct Hreg as [? [=]]. eauto.
    + done.
Qed.

(** ** Cancellation *)

(** C4: [abortRequest] on an id that is not registered returns the state
    as it is; on a registered id, two calls in succession leave one
    [logAborted] call in the audit log, the second call changing nothing. *)
Theorem abortRequest_idempotent id now now' s :
  (abortSubjects s !! id = None ∨ requestMetadata s !! id = None →
     abortRequest id now s = s)
  ∧ (∀ h md,
       abortSubjects s !! id = Some h → requestMetadata s !! id = Some md →
       let s1 := abortRequest id now s in
       aiLogger s1 = aiLogger s ++ [logAborted (logId md) (now - startTime md)]
       ∧ abortSubjects s1 !! id = None
       ∧ requestMetadata s1 !! id = None
       ∧ abortRequest id now' s1 = s1).
Proof.
  split; [apply abortRequest_released|].
  intros h md Hs Hm s1.
  assert (s1 = cleanupRequest id
                 (Subject_next h
                    (call_aiLogger (logAborted (logId md) (now - startTime md)) s)))
    as Hs1.
  { unfold s1, abortRequest. by rewrite Hs, Hm. }
  assert (abortSubjects s1 !! id = None) as Hgone.
  { rewrite Hs1, abortSubjects_cleanupRequest. apply lookup_delete_eq. }
  split_and!.
  - by rewrite Hs1, aiLogger_cleanupRequest, aiLogger_Subject_next.
  - done.
  - rewrite Hs1, requestMetadata_cleanupRequest. apply lookup_delete_eq.
  - apply abortRequest_released. by left.
Qed.

(** The claim of C2 fails for an abort that comes before the returned
    observable is subscribed.  The id is registered and the transport call
    has not settled; [abortRequest] logs the abort and completes the
    subject; the subscription made afterwards is not ended by it, and the
    response is logged with [logSuccess] for the same log entry. *)
Lemma abort_before_subscribe_logs_success :
  let s := run [ EvGenerateText "Once upon a time" (with_requestId "req-1")
                   (sample_env sample_settings 1000 "log-1") ] initial in
  let aborted := abortRequest "req-1" 1500 s in
  let subscribed := run [ EvSubscribe 0 ] aborted in
  requestMetadata s !! "req-1" = Some {| logId := "log-1"; startTime := 1000 |}
  ∧ aiLogger aborted
    = [ logRequest API_URL "openai/gpt-4o" 384 500 "Once upon a time";
        logAborted "log-1" 500 ]
  ∧ aiLogger (settle 0 (Response sample_response) 1800 subscribed)
    = [ logRequest API_URL "openai/gpt-4o" 384 500 "Once upon a time";
        logAborted "log-1" 500;
        logSuccess "log-1" "there was a fox." 800 ].
Proof. vm_compute. done. Qed.

(** C2, amended: in a reachable state, take a call that has been
    subscribed, has not settled, and is still the one registered under its
    id.  After [abortRequest] on that id, and whatever happens next, the
    settlement of that call is discarded: neither [logSuccess] nor
    [logError] is called, and nothing else changes. *)
Theorem abort_wins_race evs i sb now evs' out now' :
  let s := run evs initial in
  subscriptions s !! i = Some sb →
  sub_state sb ≠ Closed →
  abortSubjects s !! ob_requestId (sub_source sb)
    = Some (ob_abortSubject (sub_source sb)) →
  let s' := run evs' (abortRequest (ob_requestId (sub_source sb)) now s) in
  settle i out now' s' = s' ∧ aiLogger (settle i out now' s') = aiLogger s'.
Proof.
  intros s Hl Hst Hreg s'.
  assert (Inv s) as HI by apply Inv_run, Inv_initial.
  assert (closed_at i s') as Hclosed; [|by rewrite settle_closed].
  apply closed_at_run.
  set (h := ob_abortSubject (sub_source sb)) in *.
  assert (stopped h s = false) as Hlive by eauto using inv_live.
  assert (sub_state sb = Listening) as Hlisten.
  { destruct (sub_state sb) eqn:E; [done| |done].
    pose proof (inv_detached s HI i sb Hl E) as Hdet. fold h in Hdet. congruence. }
  destruct (proj1 (Inv_registered s _ HI) (mk_is_Some _ _ Hreg)) as [md Hmd].
  unfold abortRequest. rewrite Hreg, Hmd.
  apply closed_at_cleanupRequest.
  exists (notify on_next h sb). split.
  - unfold Subject_next.
    change (stopped h (call_aiLogger _ s)) with (stopped h s). rewrite Hlive.
    simpl. by rewrite list_lookup_fmap, Hl.
  - rewrite sub_state_notify. fold h. rewrite decide_True by done.
    by rewrite Hlisten.
Qed.

(** ** Provider and transport errors *)

(** The claim of C5 fails when both messages are present: the transport
    message is logged, not the structured message of the provider. *)
Lemma logError_prefers_transport_message :
  aiLogger (run (sample_run ++ [EvSettle 0 (Failure sample_error) 1800]) initial)
    = [ logRequest API_URL "openai/gpt-4o" 384 500 "Once upon a time";
        logError "log-1" "Http failure response: 401 Unauthorized" 800 ]
  ∧ errorMessage sample_error ≠ "Invalid API key".
Proof. vm_compute. split; [reflexivity|discriminate]. Qed.

(** C5, amended: when a pending call fails, the message given to [logError]
    is the transport message [error.message] when it is a non-empty string,
    else the structured provider message [error.error.message] when it is a
    non-empty string, else ["Unknown error"]. *)
Theorem logError_message_order i sb err now s :
  subscriptions s !! i = Some sb → sub_state sb ≠ Closed →
  aiLogger (settle i (Failure err) now s)
    = aiLogger s ++
      [ logError (ob_logId (sub_source sb))
          (match message err with
           | Some (String a m) => String a m
           | _ =>
               match error err with
               | Some {| body_message := Some (String a b) |} => String a b
               | _ => "Unknown error"
               end
           end)
          (now - ob_startTime (sub_source sb)) ].
Proof.
  intros Hl Hst. rewrite (settle_pending i sb _ now s Hl Hst).
  change (aiLogger (set_subscriptions ?f ?x)) with (aiLogger x).
  unfold tap_error. rewrite aiLogger_cleanupRequest. simpl.
  do 2 f_equal. unfold errorMessage.
  destruct (message err) as [[|a m]|]; simpl; try done.
  all: by destruct (error err) as [[[[|b k]|]]|].
Qed.

Lemma logError_message_order_witness :
  aiLogger (settle 0 (Failure {| message := None;
                                 error := Some {| body_message := Some "Invalid API key" |} |})
              1800 (run sample_run initial))
    = [ logRequest API_URL "openai/gpt-4o" 384 500 "Once upon a time";
        logError "log-1" "Invalid API key" 800 ].
Proof.
  exact (logError_message_order 0 _
           {| message := None;
              error := Some {| body_message := Some "Invalid API key" |} |}
           1800 (run sample_run initial) eq_refl
           (λ H : Listening = Closed, eq_ind Listening
              (λ st, match st with Closed => False | _ => True end) I Closed H)).
Defined.

(** ** Witnesses on a sample run *)

Lemma registries_agree_witness :
  let s := run sample_run initial in
  is_Some (abortSubjects s !! "req-1")
  ∧ is_Some (requestMetadata s !! "req-1")
  ∧ abortSubjects (settle 0 (Response sample_response) 1800 s) !! "req-1" = None
  ∧ requestMetadata (settle 0 (Response sample_response) 1800 s) !! "req-1" = None
  ∧ abortSubjects (abortRequest "req-1" 1500 s) !! "req-1" = None
  ∧ requestMetadata (abortRequest "req-1" 1500 s) !! "req-1" = None.
Proof.
  intros s.
  destruct (registries_agree sample_run) as (Hiff & Hsettle & Habort).
  destruct (Hsettle 0%nat _ (Response sample_response) 1800 eq_refl
              (λ H : Listening = Closed, eq_ind Listening
                 (λ st, match st with Closed => False | _ => True end) I Closed H))
    as [Hs1 Hs2].
  destruct (Habort "req-1" 1500) as [Ha1 Ha2].
  split_and!.
  - apply (Hiff "req-1"). by eexists.
  - by eexists.
  - exact Hs1.
  - exact Hs2.
  - exact Ha1.
  - exact Ha2.
Defined.

Lemma abortRequest_idempotent_witness :
  let s := run sample_run initial in
  abortRequest "unknown" 1500 s = s
  ∧ aiLogger (abortRequest "req-1" 1600 (abortRequest "req-1" 1500 s))
    = [ logRequest API_URL "openai/gpt-4o" 384 500 "Once upon a time";
        logAborted "log-1" 500 ].
Proof.
  intros s. split.
  - apply (abortRequest_idempotent "unknown" 1500 1500 s). by left.
  - destruct (abortRequest_idempotent "req-1" 1500 1600 s) as [_ Hreg].
    destruct (Hreg 0%nat {| logId := "log-1"; startTime := 1000 |} eq_refl eq_refl)
      as (Hlog & _ & _ & Hsame).
    rewrite Hsame. exact Hlog.
Defined.

Lemma abort_wins_race_witness :
  let s := abortRequest "req-1" 1500 (run sample_run initial) in
  settle 0 (Response sample_response) 1800 s = s
  ∧ aiLogger (settle 0 (Response sample_response) 1800 s)
    = [ logRequest API_URL "openai/gpt-4o" 384 500 "Once upon a time";
        logAborted "log-1" 500 ].
Proof.
  intros s.
  destruct (abort_wins_race sample_run 0 _ 1500 [] (Response sample_response) 1800
              eq_refl
              (λ H : Listening = Closed, eq_ind Listening
                 (λ st, match st with Closed => False | _ => True end) I Closed H)
              eq_refl) as [Hsame Hlog].
  split; [exact Hsame|].
  exact (eq_trans Hlog eq_refl).
Defined.

(** ** Worked runs *)

(** A call that settles with a response logs its first candidate. *)
Example run_success :
  aiLogger (run (sample_run ++ [EvSettle 0 (Response sample_response) 1800]) initial)
    = [ logRequest API_URL "openai/gpt-4o" 384 500 "Once upon a time";
        logSuccess "log-1" "there was a fox." 800 ].
Proof. vm_compute. reflexivity. Qed.

(** After a second call has taken over the id, an abort reaches the second
    call only. *)
Example run_abort_after_collision :
  aiLogger (run [ EvGenerateText "first" (with_requestId "req-1")
                    (sample_env sample_settings 1000 "log-1");
                  EvSubscribe 0;
                  EvGenerateText "second" (with_requestId "req-1")
                    (sample_env sample_settings 1200 "log-2");
                  EvSubscribe 1;
                  EvAbortRequest "req-1" 1500;
                  EvSettle 1 (Response sample_response) 1700;
                  EvSettle 0 (Response sample_response) 1800 ] initial)
    = [ logRequest API_URL "openai/gpt-4o" 384 500 "first";
        logRequest API_URL "openai/gpt-4o" 384 500 "second";
        logAborted "log-2" 300;
        logSuccess "log-1" "there was a fox." 800 ].
Proof. vm_compute. reflexivity. Qed.

(** * Further properties of the service *)

(** ** Settling *)

Lemma subscriptions_cleanupRequest_lookup id s (i : nat) (sb : Subscription) :
  subscriptions s !! i = Some sb →
  ∃ sb', subscriptions (cleanupRequest id s) !! i = Some sb'.
Proof.
  intros Hl. rewrite subscriptions_cleanupRequest.
  destruct (abortSubjects s !! id) as [h|]; [|eauto].
  destruct (stopped h s); [eauto|].
  rewrite list_lookup_fmap, Hl. simpl. eauto.
Qed.

Lemma closed_at_settle i out now s :
  is_Some (subscriptions s !! i) → closed_at i (settle i out now s).
Proof.
  intros [sb Hl]. unfold settle. rewrite Hl.
  destruct (sub_state sb) eqn:Hst; [| |by exists sb].
  all: assert (∃ sb', subscriptions
         (match out with
          | Response response => tap_next (sub_source sb) response now s
          | Failure err => tap_error (sub_source sb) err now s
          end) !! i = Some sb') as [sb' Hl']
    by (destruct out; eapply subscriptions_cleanupRequest_lookup; exact Hl).
  all: exists (close sb'); split; [|done].
  all: simpl; by rewrite list_lookup_alter_eq, Hl'.
Qed.

(** X1: when a pending call settles with a response, one [logSuccess]
    call is made, with the log id and the start time of the call and the
    content of the first candidate, or the empty string when [choices], its
    first element, the message or a non-empty content is missing. *)
Theorem logSuccess_first_content i sb response now s :
  subscriptions s !! i = Some sb → sub_state sb ≠ Closed →
  aiLogger (settle i (Response response) now s)
    = aiLogger s ++
      [ logSuccess (ob_logId (sub_source sb))
          (match choices response with
           | Some ({| choice_message := Some {| res_content := Some (String a c) |} |} :: _) =>
               String a c
           | _ => ""
           end)
          (now - ob_startTime (sub_source sb)) ].
Proof.
  intros Hl Hst. rewrite (settle_pending i sb _ now s Hl Hst).
  change (aiLogger (set_subscriptions ?f ?x)) with (aiLogger x).
  unfold tap_next. rewrite aiLogger_cleanupRequest. simpl.
  do 2 f_equal. unfold first_content.
  by destruct (choices response) as [[|[[[r [[|a c]|]]|]] l]|].
Qed.

Lemma logSuccess_first_content_witness :
  aiLogger (settle 0 (Response {| choices := Some [] |}) 1800 (run sample_run initial))
    = [ logRequest API_URL "openai/gpt-4o" 384 500 "Once upon a time";
        logSuccess "log-1" "" 800 ].
Proof.
  exact (logSuccess_first_content 0 _ {| choices := Some [] |} 1800
           (run sample_run initial) eq_refl
           (λ H : Listening = Closed, eq_ind Listening
              (λ st, match st with Closed => False | _ => True end) I Closed H)).
Defined.

(** The outcome of a transport call is consumed at most once: settling a
    subscription a second time, with any outcome, changes nothing. *)
Lemma settle_twice i out now out' now' s :
  settle i out' now' (settle i out now s) = settle i out now s.
Proof.
  destruct (subscriptions s !! i) as [sb|] eqn:Hl.
  - apply settle_closed, closed_at_settle. eauto.
  - unfold settle at 2. rewrite Hl. unfold settle. by rewrite Hl.
Qed.

(** X2: once a pending call has settled, [abortRequest] on its request id
    does nothing: no [logAborted] follows its [logSuccess] or [logError]. *)
Theorem abortRequest_after_settle i sb out now now' s :
  subscriptions s !! i = Some sb → sub_state sb ≠ Closed →
  abortRequest (ob_requestId (sub_source sb)) now' (settle i out now s)
    = settle i out now s.
Proof.
  intros Hl Hst. apply abortRequest_released. left.
  rewrite (settle_pending i sb out now s Hl Hst).
  change (abortSubjects (set_subscriptions ?f ?x)) with (abortSubjects x).
  destruct out; unfold tap_next, tap_error;
    rewrite abortSubjects_cleanupRequest; apply lookup_delete_eq.
Qed.

Lemma abortRequest_after_settle_witness :
  let s := settle 0 (Response sample_response) 1800 (run sample_run initial) in
  abortRequest "req-1" 1900 s = s.
Proof.
  exact (abortRequest_after_settle 0 _ (Response sample_response) 1800 1900
           (run sample_run initial) eq_refl
           (λ H : Listening = Closed, eq_ind Listening
              (λ st, match st with Closed => False | _ => True end) I Closed H)).
Defined.

(** X3: release is idempotent: a second [cleanupRequest] of the same id
    changes nothing. *)
Theorem cleanupRequest_twice id s :
  cleanupRequest id (cleanupRequest id s) = cleanupRequest id s.
Proof.
  apply cleanupRequest_unregistered.
  - rewrite abortSubjects_cleanupRequest. apply lookup_delete_eq.
  - rewrite requestMetadata_cleanupRequest. apply lookup_delete_eq.
Qed.

(** ** Cancellation reaches one request only *)

Lemma abortSubjects_Subject_next h s :
  abortSubjects (Subject_next h s) = abortSubjects s.
Proof. unfold Subject_next. by destruct (stopped h s). Qed.

Lemma requestMetadata_Subject_next h s :
  requestMetadata (Subject_next h s) = requestMetadata s.
Proof. unfold Subject_next. by destruct (stopped h s). Qed.

Lemma subscriptions_subscribe ob s :
  subscriptions (subscribe ob s)
    = subscriptions s ++
      [ {| sub_source := ob;
           sub_state := if stopped (ob_abortSubject ob) s then Detached
                        else Listening |} ].
Proof. reflexivity. Qed.

Lemma aiLogger_subscribe ob s : aiLogger (subscribe ob s) = aiLogger s.
Proof. reflexivity. Qed.

Lemma notify_other f h sb :
  ob_abortSubject (sub_source sb) ≠ h → notify f h sb = sb.
Proof. intros Hne. unfold notify. by rewrite decide_False. Qed.

Lemma notify_fixed f h sb : f (sub_state sb) = sub_state sb → notify f h sb = sb.
Proof.
  intros Hf. unfold notify. case_decide; [|done]. rewrite Hf. by destruct sb.
Qed.

(** A subscription that no notification changes is left alone by [abortRequest]. *)
Lemma abortRequest_keeps_subscription id now s (i : nat) (sb : Subscription) :
  subscriptions s !! i = Some sb →
  (∀ f h, abortSubjects s !! id = Some h →
          (f = on_next ∨ f = on_complete) → notify f h sb = sb) →
  subscriptions (abortRequest id now s) !! i = Some sb.
Proof.
  intros Hl Hkeep. unfold abortRequest.
  destruct (abortSubjects s !! id) as [h|] eqn:Hs; [|done].
  destruct (requestMetadata s !! id) as [md|]; [|done].
  set (s1 := call_aiLogger _ s).
  assert (subscriptions (Subject_next h s1) !! i = Some sb) as Hnext.
  { unfold Subject_next. destruct (stopped h s1); [done|]. simpl.
    rewrite list_lookup_fmap, Hl. simpl. f_equal. apply Hkeep; auto. }
  rewrite subscriptions_cleanupRequest.
  destruct (abortSubjects (Subject_next h s1) !! id) as [h'|] eqn:Hs'; [|done].
  assert (h' = h) as ->.
  { unfold Subject_next in Hs'. destruct (stopped h s1); simpl in Hs'; congruence. }
  destruct (stopped h (Subject_next h s1)); [done|].
  rewrite list_lookup_fmap, Hnext. simpl. f_equal. apply Hkeep; auto.
Qed.

Lemma abortRequest_other_ids id id' now s :
  id' ≠ id →
  abortSubjects (abortRequest id now s) !! id' = abortSubjects s !! id'
  ∧ requestMetadata (abortRequest id now s) !! id' = requestMetadata s !! id'.
Proof.
  intros Hne. unfold abortRequest.
  destruct (abortSubjects s !! id) as [h|]; [|done].
  destruct (requestMetadata s !! id) as [md|]; [|done].
  rewrite abortSubjects_cleanupRequest, requestMetadata_cleanupRequest.
  rewrite !lookup_delete_ne by done.
  by rewrite abortSubjects_Subject_next, requestMetadata_Subject_next.
Qed.

(** X4: in a reachable state, aborting one request leaves every other
    registered request as it is: its subscriptions keep their state and
    its entries stay in both maps. *)
Theorem abortRequest_isolated evs id now i sb :
  let s := run evs initial in
  subscriptions s !! i = Some sb →
  abortSubjects s !! ob_requestId (sub_source sb)
    = Some (ob_abortSubject (sub_source sb)) →
  id ≠ ob_requestId (sub_source sb) →
  let s' := abortRequest id now s in
  subscriptions s' !! i = Some sb
  ∧ abortSubjects s' !! ob_requestId (sub_source sb)
      = Some (ob_abortSubject (sub_source sb))
  ∧ requestMetadata s' !! ob_requestId (sub_source sb)
      = requestMetadata s !! ob_requestId (sub_source sb).
Proof.
  intros s Hl Hreg Hne s'.
  assert (Inv s) as HI by apply Inv_run, Inv_initial.
  destruct (abortRequest_other_ids id (ob_requestId (sub_source sb)) now s)
    as [Hs Hm]; [done|].
  split_and!; [|by rewrite <- Hreg|done].
  apply abortRequest_keeps_subscription; [done|].
  intros f h Hh _. apply notify_other. intros <-.
  apply Hne. by eapply (inv_inj s HI).
Qed.

Lemma abortRequest_isolated_witness :
  let s := run (sample_run ++
                [ EvGenerateText "Another" (with_requestId "req-2")
                    (sample_env sample_settings 1100 "log-2");
                  EvSubscribe 1 ]) initial in
  ∃ sb, subscriptions s !! 0%nat = Some sb
        ∧ sub_state sb = Listening
        ∧ subscriptions (abortRequest "req-2" 1500 s) !! 0%nat = Some sb.
Proof.
  intros s. eexists. split; [reflexivity|]. split; [reflexivity|].
  apply (abortRequest_isolated
           (sample_run ++
            [ EvGenerateText "Another" (with_requestId "req-2")
                (sample_env sample_settings 1100 "log-2");
              EvSubscribe 1 ]) "req-2" 1500 0 _ eq_refl eq_refl).
  discriminate.
Defined.

(** X8: an abort issued before the observable is subscribed is lost.  In a
    reachable state, after [abortRequest] on a registered id, a subscription
    of that request's observable is detached; no later [abortRequest]
    changes it, and its settlement is logged after the [logAborted]. *)
Theorem abort_before_subscribe_is_lost evs ob id now out now' :
  let s := run evs initial in
  abortSubjects s !! id = Some (ob_abortSubject ob) →
  let s1 := subscribe ob (abortRequest id now s) in
  let i := length (subscriptions s) in
  subscriptions s1 !! i = Some {| sub_source := ob; sub_state := Detached |}
  ∧ (∀ id' now'',
       subscriptions (abortRequest id' now'' s1) !! i
         = Some {| sub_source := ob; sub_state := Detached |})
  ∧ ∃ md, requestMetadata s !! id = Some md
      ∧ aiLogger (settle i out now' s1)
        = aiLogger s ++
          [ logAborted (logId md) (now - startTime md);
            match out with
            | Response response =>
                logSuccess (ob_logId ob) (first_content response) (now' - ob_startTime ob)
            | Failure err =>
                logError (ob_logId ob) (errorMessage err) (now' - ob_startTime ob)
            end ].
Proof.
  intros s Hreg s1 i.
  assert (Inv s) as HI by apply Inv_run, Inv_initial.
  destruct (proj1 (Inv_registered s _ HI) (mk_is_Some _ _ Hreg)) as [md Hmd].
  set (h := ob_abortSubject ob) in *.
  set (s0 := abortRequest id now s).
  assert (s0 = cleanupRequest id
                 (Subject_next h
                    (call_aiLogger (logAborted (logId md) (now - startTime md)) s)))
    as Hs0.
  { unfold s0, abortRequest. by rewrite Hreg, Hmd. }
  assert (stopped h s0 = true) as Hstopped.
  { rewrite Hs0, stopped_cleanupRequest, abortSubjects_Subject_next. simpl.
    rewrite Hreg. by rewrite decide_True. }
  assert (length (subscriptions s0) = length (subscriptions s)) as Hlen.
  { rewrite Hs0, subscriptions_cleanupRequest.
    assert (length (subscriptions (Subject_next h
              (call_aiLogger (logAborted (logId md) (now - startTime md)) s)))
            = length (subscriptions s)) as Hn.
    { unfold Subject_next. destruct (stopped h (call_aiLogger _ s)); simpl; [done|].
      by rewrite length_fmap. }
    rewrite abortSubjects_Subject_next.
    change (abortSubjects (call_aiLogger ?c s)) with (abortSubjects s).
    rewrite Hreg.
    destruct (stopped h (Subject_next h _)); [done|]. by rewrite length_fmap. }
  assert (subscriptions s1 !! i = Some {| sub_source := ob; sub_state := Detached |})
    as Hl.
  { unfold s1. fold s0. rewrite subscriptions_subscribe. fold h.
    rewrite Hstopped.
    rewrite lookup_app_r by (unfold i; lia).
    unfold i. by rewrite Hlen, Nat.sub_diag. }
  split_and!; [done| |].
  - intros id' now''. apply abortRequest_keeps_subscription; [done|].
    intros f h' _ [-> | ->]; by apply notify_fixed.
  - exists md. split; [done|].
    rewrite (settle_pending i _ out now' s1 Hl) by done.
    change (aiLogger (set_subscriptions ?f ?x)) with (aiLogger x).
    assert (aiLogger s1 = aiLogger s ++ [logAborted (logId md) (now - startTime md)])
      as Hlog.
    { unfold s1. fold s0. rewrite aiLogger_subscribe.
      by rewrite Hs0, aiLogger_cleanupRequest, aiLogger_Subject_next. }
    destruct out; unfold tap_next, tap_error;
      rewrite aiLogger_cleanupRequest;
      change (aiLogger (call_aiLogger ?c ?x)) with (aiLogger x ++ [c]);
      rewrite Hlog; by rewrite <- app_assoc.
Qed.

Lemma abort_before_subscribe_is_lost_witness :
  let s := run [ EvGenerateText "Once upon a time" (with_requestId "req-1")
                   (sample_env sample_settings 1000 "log-1") ] initial in
  ∃ ob, observables s !! 0%nat = Some ob
    ∧ subscriptions (subscribe ob (abortRequest "req-1" 1500 s)) !! 0%nat
        = Some {| sub_source := ob; sub_state := Detached |}.
Proof.
  intros s. eexists. split; [reflexivity|].
  refine (proj1 (abort_before_subscribe_is_lost
                   [ EvGenerateText "Once upon a time" (with_requestId "req-1")
                       (sample_env sample_settings 1000 "log-1") ]
                   _ "req-1" 1500 (Response sample_response) 1800 _)).
  reflexivity.
Defined.

(** ** Request ids *)

Lemma no_underscore_pretty_N_go x : ∀ acc,
  no_underscore acc = true → no_underscore (pretty_N_go x acc) = true.
Proof.
  induction (N.lt_wf_0 x) as [x _ IH]; intros acc Hacc.
  assert (x = 0 ∨ 0 < x)%N as [->|Hpos] by lia.
  - by rewrite pretty_N_go_0.
  - rewrite pretty_N_go_step by done. apply IH.
    + by apply N.div_lt.
    + simpl. rewrite Hacc. unfold pretty_N_char. by repeat case_match.
Qed.

Lemma no_underscore_pretty_Z (z : Z) : no_underscore (pretty z) = true.
Proof.
  assert (∀ p : positive, no_underscore (pretty p) = true) as Hpos.
  { intros p. unfold pretty, pretty_positive, pretty, pretty_N.
    case_decide; [done|]. by apply no_underscore_pretty_N_go. }
  destruct z as [|p|p]; [done|apply Hpos|].
  unfold pretty, pretty_Z. simpl. apply Hpos.
Qed.

(** Two strings without underscore that agree once an underscore and a
    suffix are appended are equal, and so are the suffixes. *)
Lemma append_underscore_inj a : ∀ b r1 r2,
  no_underscore a = true → no_underscore b = true →
  a +:+ String underscore r1 = b +:+ String underscore r2 →
  a = b ∧ r1 = r2.
Proof.
  induction a as [|c a IH]; intros [|d b] r1 r2 Ha Hb Heq; simpl in *.
  - by injection Heq.
  - injection Heq as <- _. apply andb_prop in Hb as [Hd _].
    by rewrite Ascii.eqb_refl in Hd.
  - injection Heq as -> _. apply andb_prop in Ha as [Hc _].
    by rewrite Ascii.eqb_refl in Hc.
  - injection Heq as -> Hrest.
    apply andb_prop in Ha as [_ Ha]. apply andb_prop in Hb as [_ Hb].
    destruct (IH b r1 r2 Ha Hb Hrest) as [-> ->]. done.
Qed.

(** X6: generated request ids differ whenever the timestamp or the random
    suffix differs. *)
Theorem generateRequestId_inj env1 env2 :
  generateRequestId env1 = generateRequestId env2 →
  id_Date_now env1 = id_Date_now env2 ∧ id_random env1 = id_random env2.
Proof.
  unfold generateRequestId. intros Heq.
  injection Heq as Heq.
  apply append_underscore_inj in Heq as [Hnow Hrnd];
    [|apply no_underscore_pretty_Z..].
  split; [|done]. by apply (inj pretty).
Qed.

Lemma generateRequestId_inj_witness :
  id_Date_now (sample_env sample_settings 1000 "log-1")
    = id_Date_now (sample_env disabled_settings 1000 "log-2")
  ∧ id_random (sample_env sample_settings 1000 "log-1")
    = id_random (sample_env disabled_settings 1000 "log-2").
Proof.
  apply generateRequestId_inj. reflexivity.
Defined.

(** X5: the request id of a returned observable is never empty: it is the
    caller's id when that is a non-empty string, and otherwise the generated
    id, which starts with [req_]; the observable is registered under it. *)
Theorem requestId_never_empty prompt options env s o s' :
  generateText prompt options env s = (Return o, s') →
  ob_requestId o ≠ ""
  ∧ abortSubjects s' !! ob_requestId o = Some (ob_abortSubject o)
  ∧ (∀ id, opt_requestId options = Some id → id ≠ "" → ob_requestId o = id)
  ∧ (opt_requestId options = None ∨ opt_requestId options = Some "" →
     ∃ rest, ob_requestId o = "req_" +:+ rest).
Proof.
  intros Hgen. apply generateText_Return in Hgen as (_ & Ho & Hsub & _).
  assert (ob_requestId o
          = or_string (opt_requestId options) (generateRequestId env)) as Hid
    by by rewrite Ho.
  split_and!.
  - rewrite Hid. unfold or_string.
    destruct (opt_requestId options) as [[|a x]|]; simpl; done.
  - rewrite Hsub. apply lookup_insert_eq.
  - intros id Hsome Hne. rewrite Hid, Hsome. by apply or_string_Some.
  - intros Hnone. exists (pretty (id_Date_now env) +:+ "_" +:+ id_random env).
    rewrite Hid. by destruct Hnone as [-> | ->].
Qed.

Lemma requestId_never_empty_witness :
  ∃ o, (generateText "p" no_options (sample_env sample_settings 5 "l") initial).1
         = Return o
       ∧ ob_requestId o ≠ "".
Proof.
  eexists. split; [reflexivity|].
  apply (requestId_never_empty "p" no_options (sample_env sample_settings 5 "l")
           initial _ _ eq_refl).
Defined.

(** ** Aborts never outnumber requests *)

Lemma count_calls_snoc p l c :
  count_calls p (l ++ [c]) = (count_calls p l + if p c then 1 else 0)%nat.
Proof. induction l as [|d l IH]; simpl; [lia|]. rewrite IH. lia. Qed.

Lemma balanced_step ev s : balanced s → balanced (step s ev).
Proof.
  unfold balanced. intros Hb.
  destruct ev as [prompt options env|o|i out now|id now]; simpl.
  - destruct (generateText prompt options env s) as [[e|o] s'] eqn:Hgen.
    + by apply generateText_Throw in Hgen as ->.
    + apply generateText_Return in Hgen as (_ & _ & Hsub & _ & Hlog & _).
      simpl. rewrite Hsub, Hlog, !count_calls_snoc, map_size_insert. simpl.
      destruct (abortSubjects s !! ob_requestId o); simpl; lia.
  - by destruct (observables s !! o).
  - unfold settle.
    destruct (subscriptions s !! i) as [sb|]; [|done].
    destruct (sub_state sb); [| |done].
    all: simpl; destruct out; unfold tap_next, tap_error.
    all: rewrite abortSubjects_cleanupRequest, aiLogger_cleanupRequest.
    all: simpl; rewrite !count_calls_snoc, map_size_delete; simpl.
    all: destruct (abortSubjects s !! _); simpl; lia.
  - unfold abortRequest.
    destruct (abortSubjects s !! id) as [h|] eqn:Hs; [|done].
    destruct (requestMetadata s !! id) as [md|]; [|done].
    rewrite abortSubjects_cleanupRequest, aiLogger_cleanupRequest.
    rewrite abortSubjects_Subject_next, aiLogger_Subject_next. simpl.
    rewrite !count_calls_snoc, map_size_delete, Hs. simpl.
    assert (size (abortSubjects s) ≠ O).
    { intros Hz. apply map_size_empty_inv in Hz. rewrite Hz in Hs.
      by rewrite lookup_empty in Hs. }
    lia.
Qed.

(** X7: in every reachable state, the number of registered ids plus the
    number of [logAborted] calls is at most the number of [logRequest]
    calls: every abort that is logged released the registration of a call
    that was logged. *)
Theorem aborts_bounded_by_requests evs :
  let s := run evs initial in
  (size (abortSubjects s) + count_calls is_logAborted (aiLogger s)
   ≤ count_calls is_logRequest (aiLogger s))%nat.
Proof.
  intros s. unfold s.
  assert (∀ s0, balanced s0 → balanced (run evs s0)) as Hrun.
  { induction evs as [|ev evs IH]; intros s0 Hb; [done|].
    simpl. by apply IH, balanced_step. }
  apply Hrun. unfold balanced. simpl. rewrite map_size_empty. lia.
Qed.

(** * Properties of the story list *)

(** ** Words are runs of code units that are not white space *)

Lemma nonempty_pieces_nil l : nonempty_pieces ([] :: l) = nonempty_pieces l.
Proof. unfold nonempty_pieces. rewrite filter_cons_False; [done|simpl; lia]. Qed.

Lemma nonempty_pieces_cons c p l :
  nonempty_pieces ((c :: p) :: l) = S (nonempty_pieces l).
Proof. unfold nonempty_pieces. rewrite filter_cons_True; [done|simpl; lia]. Qed.

Lemma split_ws_runs x :
  ∃ p ps, split_ws x = p :: ps
    ∧ (match x with [] => True | c :: _ => isWhiteSpace c = true end → p = [])
    ∧ nonempty_pieces (p :: ps) = count_runs true x
    ∧ nonempty_pieces ps = count_runs false x.
Proof.
  induction x as [|c x IH].
  - exists [], []. by split_and!.
  - destruct IH as (p & ps & Hsplit & Hhead & Htrue & Hfalse).
    simpl. destruct (isWhiteSpace c) eqn:Hc.
    + destruct x as [|d x].
      * exists [], [[]]. by split_and!.
      * destruct (isWhiteSpace d) eqn:Hd.
        -- exists p, ps. rewrite (Hhead eq_refl) in *.
           rewrite nonempty_pieces_nil in Htrue. split_and!; try done.
           all: rewrite ?nonempty_pieces_nil; simpl in *; rewrite ?Hd in *;
             congruence.
        -- exists [], (p :: ps). rewrite Hsplit.
           split_and!; rewrite ?nonempty_pieces_nil; done.
    + rewrite Hsplit. exists (c :: p), ps.
      split_and!; rewrite ?nonempty_pieces_cons, ?Hfalse; done.
Qed.

Lemma count_runs_trimStart x : count_runs true (trimStart x) = count_runs true x.
Proof.
  induction x as [|c x IH]; [done|]. simpl.
  destruct (isWhiteSpace c) eqn:Hc; [done|]. simpl. by rewrite Hc.
Qed.

Lemma count_runs_trimEnd x : ∀ b, count_runs b (trimEnd x) = count_runs b x.
Proof.
  induction x as [|c x IH]; intros b; [done|]. simpl.
  destruct (trimEnd x) as [|t ts] eqn:Ht.
  - pose proof (IH true) as Htrue. pose proof (IH false) as Hfalse.
    simpl in Htrue, Hfalse.
    destruct (isWhiteSpace c) eqn:Hc; simpl; [done|].
    rewrite Hc. by rewrite <- Hfalse.
  - simpl. destruct (isWhiteSpace c); by rewrite <- IH.
Qed.

Lemma countWords_count_runs text : countWords text = count_runs true text.
Proof.
  unfold countWords, trim.
  destruct (split_ws_runs (trimEnd (trimStart text)))
    as (p & ps & -> & _ & Htrue & _).
  fold (nonempty_pieces (p :: ps)). rewrite Htrue.
  by rewrite count_runs_trimEnd, count_runs_trimStart.
Qed.

Lemma foldl_add_scenes (g : Scene → nat) scs : ∀ acc,
  foldl (λ total scene, (total + g scene)%nat) acc scs
    = (acc + sum_list_with g scs)%nat.
Proof.
  induction scs as [|sc scs IH]; intros acc; simpl; [lia|].
  rewrite IH. lia.
Qed.

(** X10: the word count of a story is the number of maximal runs of
    code units that are not white space: in the legacy content when that is
    not empty, and otherwise summed over all scenes of all chapters.
    Leading, trailing and repeated white space do not count. *)
Theorem getWordCount_runs story :
  getWordCount story
    = match story_content story with
      | Some (c :: x) => count_runs true (c :: x)
      | _ => sum_list_with (λ scene, count_runs true (or_empty (scene_content scene)))
               (all_scenes story)
      end.
Proof.
  assert (∀ chs acc,
    foldl (λ totalWords chapter,
             match scenes chapter with
             | Some scs =>
                 foldl (λ total scene,
                          (total + countWords (or_empty (scene_content scene)))%nat)
                   totalWords scs
             | None => totalWords
             end) acc chs
    = (acc + sum_list_with (λ scene, count_runs true (or_empty (scene_content scene)))
               (concat (map (λ chapter, default [] (scenes chapter)) chs)))%nat)
    as Hchapters.
  { induction chs as [|ch chs IH]; intros acc; simpl; [lia|].
    rewrite IH, sum_list_with_app.
    destruct (scenes ch) as [scs|]; simpl; [|lia].
    rewrite foldl_add_scenes.
    assert (sum_list_with (λ scene, countWords (or_empty (scene_content scene))) scs
            = sum_list_with (λ scene, count_runs true (or_empty (scene_content scene)))
                scs) as ->; [|lia].
    induction scs as [|sc scs IHs]; simpl; [done|].
    by rewrite IHs, countWords_count_runs. }
  unfold getWordCount, all_scenes.
  destruct (story_content story) as [[|c x]|].
  2:{ apply countWords_count_runs. }
  all: destruct (chapters story) as [chs|]; [|done].
  all: by rewrite Hchapters.
Qed.

Lemma count_runs_join a w b : ∀ after_ws,
  isWhiteSpace w = true →
  count_runs after_ws (a ++ w :: b)
    = (count_runs after_ws a + count_runs true b)%nat.
Proof.
  induction a as [|c a IH]; intros after_ws Hw; simpl.
  - by rewrite Hw.
  - destruct (isWhiteSpace c); rewrite IH by done; lia.
Qed.

(** X11: the words of two texts joined by a white space code unit are
    the words of the one and the words of the other. *)
Theorem countWords_join a w b :
  isWhiteSpace w = true →
  countWords (a ++ w :: b) = (countWords a + countWords b)%nat.
Proof.
  intros Hw. rewrite !countWords_count_runs. by apply count_runs_join.
Qed.

Lemma countWords_join_witness :
  countWords (utf16 "Once upon" ++ 10%N :: utf16 "a time") = 4%nat.
Proof.
  rewrite (countWords_join (utf16 "Once upon") 10%N (utf16 "a time") eq_refl).
  reflexivity.
Defined.

Lemma count_runs_zero x :
  count_runs true x = O ↔ Forall (λ c, isWhiteSpace c = true) x.
Proof.
  induction x as [|c x IH]; simpl.
  - split; [constructor|done].
  - destruct (isWhiteSpace c) eqn:Hc.
    + rewrite IH. split; [by constructor|by inversion 1].
    + split; [lia|]. inversion 1; congruence.
Qed.

(** X12: a story with legacy content that is not empty has word count
    zero exactly when that content is white space only, whatever its
    chapters hold. *)
Theorem getWordCount_legacy_zero story c x :
  story_content story = Some (c :: x) →
  getWordCount story = O ↔ Forall (λ d, isWhiteSpace d = true) (c :: x).
Proof.
  intros Hc. unfold getWordCount. rewrite Hc, countWords_count_runs.
  apply count_runs_zero.
Qed.

Lemma getWordCount_legacy_zero_witness :
  getWordCount {| story_content := Some (utf16 "  ");
                  chapters := Some [ {| scenes := Some [ {| scene_content :=
                                          Some (utf16 "Once upon a time") |} ] |} ] |}
    = O.
Proof.
  apply (getWordCount_legacy_zero
           {| story_content := Some (utf16 "  ");
              chapters := Some [ {| scenes := Some [ {| scene_content :=
                                      Some (utf16 "Once upon a time") |} ] |} ] |}
           32%N [32%N] eq_refl).
  repeat constructor.
Defined.

Lemma count_runs_bound x :
  (2 * count_runs true x ≤ length x + 1)%nat
  ∧ (2 * count_runs false x ≤ length x)%nat.
Proof.
  induction x as [|c x [IHt IHf]]; simpl; [lia|].
  destruct (isWhiteSpace c); lia.
Qed.

(** X13: a text of [n] code units has at most [(n + 1) / 2] words. *)
Theorem countWords_bound text :
  (2 * countWords text ≤ length text + 1)%nat.
Proof.
  rewrite countWords_count_runs. apply count_runs_bound.
Qed.


(** ** The preview *)

Lemma length_ellipsis150 c : (length (ellipsis150 c) ≤ 153)%nat.
Proof.
  unfold ellipsis150. destruct (Nat.ltb_spec 150 (length c)).
  - rewrite length_app, length_take.
    change (length (utf16 "...")) with 3%nat. lia.
  - lia.
Qed.

Lemma take_ellipsis150 c : take 150 (ellipsis150 c) = take 150 c.
Proof.
  unfold ellipsis150. destruct (Nat.ltb_spec 150 (length c)); [|done].
  rewrite take_app_le by (rewrite length_take; lia).
  by rewrite take_idemp.
Qed.

(** X14: the preview of a story is never longer than 153 code units. *)
Theorem getStoryPreview_length story :
  (length (getStoryPreview story) ≤ 153)%nat.
Proof.
  unfold getStoryPreview.
  destruct (story_content story) as [[|c x]|].
  2:{ apply length_ellipsis150. }
  all: destruct (chapters story) as [[|ch chs]|]; try (by vm_compute; lia).
  all: destruct (scenes ch) as [[|sc scs]|]; try (by vm_compute; lia).
  all: apply length_ellipsis150.
Qed.

(** X15: legacy content that is not empty hides the chapters: two stories
    with the same such content have the same preview and the same word
    count; the preview starts with the first 150 code units of the content
    and is the content itself when that has at most 150 code units. *)
Theorem legacy_content_hides_chapters story1 story2 c x :
  story_content story1 = Some (c :: x) →
  story_content story2 = Some (c :: x) →
  getStoryPreview story1 = getStoryPreview story2
  ∧ getWordCount story1 = getWordCount story2
  ∧ take 150 (getStoryPreview story1) = take 150 (c :: x)
  ∧ ((length (c :: x) ≤ 150)%nat → getStoryPreview story1 = c :: x).
Proof.
  intros H1 H2. unfold getStoryPreview, getWordCount. rewrite H1, H2.
  split_and!; [done|done|apply take_ellipsis150|].
  intros Hlen. unfold ellipsis150.
  destruct (Nat.ltb_spec 150 (length (c :: x))); [lia|done].
Qed.

Lemma legacy_content_hides_chapters_witness :
  getStoryPreview {| story_content := Some (utf16 "Once upon a time");
                     chapters := Some [ {| scenes := Some [ {| scene_content :=
                                             Some (utf16 "A newer draft") |} ] |} ] |}
    = utf16 "Once upon a time".
Proof.
  apply (legacy_content_hides_chapters
           {| story_content := Some (utf16 "Once upon a time");
              chapters := Some [ {| scenes := Some [ {| scene_content :=
                                      Some (utf16 "A newer draft") |} ] |} ] |}
           {| story_content := Some (utf16 "Once upon a time"); chapters := None |}
           79%N (utf16 "nce upon a time") eq_refl eq_refl).
  simpl. lia.
Defined.

(** ** The life of one call *)

(** X9: a call that is subscribed at once has one terminal log entry,
    from any state.  If [abortRequest] comes first, the audit log gains
    the request and one [logAborted], and the later settlement changes
    nothing.  If the settlement comes first, the audit log gains the request
    and one [logSuccess] or [logError], and a later [abortRequest] changes
    nothing. *)
Theorem one_terminal_log prompt options env s o s' now out now' :
  generateText prompt options env s = (Return o, s') →
  let i := length (subscriptions s) in
  let request :=
    logRequest API_URL (model (ob_request o)) (resolve_wordCount options)
      (resolve_maxTokens options) prompt in
  let aborted := abortRequest (ob_requestId o) now (subscribe o s') in
  let settled := settle i out now (subscribe o s') in
  (aiLogger aborted
     = aiLogger s ++ [request; logAborted (logRequest_result env) (now - Date_now env)]
   ∧ settle i out now' aborted = aborted)
  ∧ (aiLogger settled
     = aiLogger s ++
       [ request;
         match out with
         | Response response =>
             logSuccess (logRequest_result env) (first_content response)
               (now - Date_now env)
         | Failure err =>
             logError (logRequest_result env) (errorMessage err) (now - Date_now env)
         end ]
     ∧ abortRequest (ob_requestId o) now' settled = settled).
Proof.
  intros Hgen i request aborted settled.
  apply generateText_Return in Hgen
    as (_ & Ho & Hsub & Hmeta & Hlog & Hsj & _ & Hsubs).
  set (h := ob_abortSubject o) in *. set (id := ob_requestId o) in *.
  assert (h = length (subjects s)) as Hh by (unfold h; by rewrite Ho).
  assert (ob_logId o = logRequest_result env) as Hlid by by rewrite Ho.
  assert (ob_startTime o = Date_now env) as Hst by by rewrite Ho.
  assert (stopped h s' = false) as Hlive.
  { unfold stopped. rewrite Hsj, Hh, lookup_app_r by lia.
    by rewrite Nat.sub_diag. }
  set (s1 := subscribe o s').
  assert (subscriptions s1 !! i = Some {| sub_source := o; sub_state := Listening |})
    as Hl.
  { unfold s1. rewrite subscriptions_subscribe. fold h. rewrite Hlive, Hsubs.
    rewrite lookup_app_r by (unfold i; lia). unfold i. by rewrite Nat.sub_diag. }
  assert (abortSubjects s1 !! id = Some h) as Hreg.
  { change (abortSubjects s1) with (abortSubjects s').
    rewrite Hsub. apply lookup_insert_eq. }
  assert (requestMetadata s1 !! id
          = Some {| logId := ob_logId o; startTime := ob_startTime o |}) as Hmd.
  { change (requestMetadata s1) with (requestMetadata s').
    rewrite Hmeta. apply lookup_insert_eq. }
  assert (aiLogger s1 = aiLogger s ++ [request]) as Hlog1.
  { unfold s1. by rewrite aiLogger_subscribe, Hlog. }
  split; split.
  - unfold aborted, abortRequest. fold s1. rewrite Hreg, Hmd.
    rewrite aiLogger_cleanupRequest, aiLogger_Subject_next.
    change (aiLogger (call_aiLogger ?c ?x)) with (aiLogger x ++ [c]).
    change (logId {| logId := ?a; startTime := ?b |}) with a.
    change (startTime {| logId := ?a; startTime := ?b |}) with b.
    rewrite Hlog1, Hlid, Hst. by rewrite <- app_assoc.
  - apply settle_closed. unfold aborted, abortRequest. fold s1.
    rewrite Hreg, Hmd. apply closed_at_cleanupRequest.
    exists (notify on_next h {| sub_source := o; sub_state := Listening |}).
    split.
    + unfold Subject_next.
      change (stopped h (call_aiLogger ?c s1)) with (stopped h s').
      rewrite Hlive.
      change (subscriptions (set_subscriptions ?f (call_aiLogger ?c ?x)))
        with (f (subscriptions x)).
      by rewrite list_lookup_fmap, Hl.
    + rewrite sub_state_notify. simpl. fold h. by rewrite decide_True.
  - unfold settled. fold s1. rewrite (settle_pending i _ out now s1 Hl) by done.
    change (aiLogger (set_subscriptions ?f ?x)) with (aiLogger x).
    destruct out; unfold tap_next, tap_error;
      rewrite aiLogger_cleanupRequest;
      change (aiLogger (call_aiLogger ?c ?x)) with (aiLogger x ++ [c]);
      change (sub_source {| sub_source := ?a; sub_state := ?b |}) with a;
      rewrite Hlog1, Hlid, Hst; by rewrite <- app_assoc.
  - apply abortRequest_released. left.
    unfold settled. fold s1. rewrite (settle_pending i _ out now s1 Hl) by done.
    change (abortSubjects (set_subscriptions ?f ?x)) with (abortSubjects x).
    change (sub_source {| sub_source := ?a; sub_state := ?b |}) with o.
    destruct out; unfold tap_next, tap_error;
      rewrite abortSubjects_cleanupRequest; apply lookup_delete_eq.
Qed.

Lemma one_terminal_log_witness :
  let s' := (generateText "Once upon a time" no_options
               (sample_env sample_settings 1000 "log-1") initial).2 in
  ∃ o, (generateText "Once upon a time" no_options
          (sample_env sample_settings 1000 "log-1") initial).1 = Return o
    ∧ aiLogger (abortRequest (ob_requestId o) 1500 (subscribe o s'))
      = [ logRequest API_URL "openai/gpt-4o" 384 500 "Once upon a time";
          logAborted "log-1" 500 ].
Proof.
  intros s'. eexists. split; [reflexivity|].
  exact (proj1 (proj1 (one_terminal_log "Once upon a time" no_options
                         (sample_env sample_settings 1000 "log-1") initial _ _
                         1500 (Response sample_response) 1800 eq_refl))).
Defined.

(** ** Worked examples of the story list *)

(** [" a  b ".split(/\s+/)] is [["", "a", "b", ""]], and the empty string
    splits into one empty piece. *)
Example split_ws_edges :
  split_ws (utf16 " a  b ") = [utf16 ""; utf16 "a"; utf16 "b"; utf16 ""]
  ∧ split_ws (utf16 "") = [utf16 ""]
  ∧ trim (utf16 " a  b ") = utf16 "a  b"
  ∧ countWords (utf16 "  hello   world  ") = 2%nat.
Proof. vm_compute. done. Qed.

(** A story without legacy content is previewed by its first scene and
    counted over all its scenes. *)
Example chaptered_story :
  let story :=
    {| story_content := Some (utf16 "");
       chapters :=
         Some [ {| scenes := Some [ {| scene_content := None |};
                                    {| scene_content := Some (utf16 "It was night.") |} ] |};
                {| scenes := None |};
                {| scenes := Some [ {| scene_content := Some (utf16 "The end") |} ] |} ] |} in
  getStoryPreview story = utf16 "" ∧ getWordCount story = 5%nat.
Proof. vm_compute. done. Qed.
